(** * The device transport and REPL protocol engine of the PySTEM Mini Bot IDE

    A shallow embedding of [RobotController] (robot.js): the prompt scanner
    [readUntilPrompt], the line sender [sendLine], the raw executor
    [executeCodeRaw], the transfer encoder [wrapCodeHex], the file transfer
    orchestrator [uploadCode] / [downloadCode], the retention policy of
    [backgroundReadLoop] and the connection teardown [disconnect].

    JavaScript strings are sequences of UTF-16 code units; they are modelled
    as lists of [N].  Byte arrays ([Uint8Array]) are lists of [N] as well,
    each element below 256.  Asynchronous calls are sequenced the way the
    [await]s sequence them: as a state-and-exception monad over a [World]
    that holds the controller's fields, the results the successive
    [consumer.readWithTimeout] polls will produce, and the trace of the
    operations performed on the transport. *)

From Stdlib Require Import String Ascii DecimalString HexadecimalString.
From Stdlib Require Import List NArith Arith Lia Bool.
Import ListNotations.

Set Warnings "-abstract-large-number".

(* ================================================================== *)
(** ** JavaScript strings and the built-ins the controller calls *)

Module JS.

(** A string: its UTF-16 code units. *)
Definition str := list N.

(** A string literal of the source.  The literals of robot.js are ASCII. *)
Definition lit (s : string) : str := map N_of_ascii (list_ascii_of_string s).

(** A literal that holds double quotes, written with a backquote in the
    place of each double quote (no literal of robot.js holds a backquote of
    its own). *)
Definition tpl (s : string) : str :=
  map (fun c => if N.eqb c 96 then 34%N else c) (lit s).

Definition crlf : str := [13; 10]%N.

Fixpoint eqb (a b : str) : bool :=
  match a, b with
  | [], [] => true
  | c :: a', d :: b' => N.eqb c d && eqb a' b'
  | _, _ => false
  end.

(** Truthiness of a string: [!s] holds of the empty string only. *)
Definition falsy (s : str) : bool :=
  match s with [] => true | _ :: _ => false end.

(** [s.startsWith(p)] *)
Fixpoint startsWith (s p : str) : bool :=
  match p, s with
  | [], _ => true
  | _ :: _, [] => false
  | c :: p', d :: s' => N.eqb c d && startsWith s' p'
  end.

(** [s.endsWith(p)] *)
Definition endsWith (s p : str) : bool := startsWith (rev s) (rev p).

(** [s.indexOf(p)]: the first position where [p] occurs; [None] is the
    source's [-1]. *)
Fixpoint indexOf (s p : str) : option nat :=
  if startsWith s p then Some 0
  else match s with
       | [] => None
       | _ :: s' => option_map S (indexOf s' p)
       end.

(** [s.includes(p)] *)
Definition includes (s p : str) : bool :=
  match indexOf s p with Some _ => true | None => false end.

(** [s.substring(a, b)]: both indices are clamped to the length and
    swapped when the first exceeds the second. *)
Definition substring (s : str) (a b : nat) : str :=
  let a' := Nat.min a (length s) in
  let b' := Nat.min b (length s) in
  firstn (Nat.max a' b' - Nat.min a' b') (skipn (Nat.min a' b') s).

(** [s.substring(a)] *)
Definition substringFrom (s : str) (a : nat) : str := skipn a s.

(** WhiteSpace and LineTerminator code units of ECMAScript: what
    [String.prototype.trim] strips and what [\s] matches. *)
Definition isWhiteSpace (c : N) : bool :=
  ((9 <=? c) && (c <=? 13) || (c =? 32) || (c =? 160) || (c =? 5760)
   || (8192 <=? c) && (c <=? 8202) || (c =? 8232) || (c =? 8233)
   || (c =? 8239) || (c =? 8287) || (c =? 12288) || (c =? 65279))%N.

Fixpoint trimStart (s : str) : str :=
  match s with
  | [] => []
  | c :: s' => if isWhiteSpace c then trimStart s' else s
  end.

Definition trimEnd (s : str) : str := rev (trimStart (rev s)).

(** [s.trim()] *)
Definition trim (s : str) : str := trimEnd (trimStart s).

(** [s.split(sep)] for a one-character separator: never an empty list. *)
Fixpoint split (sep : N) (s : str) : list str :=
  match s with
  | [] => [[]]
  | c :: s' =>
      if N.eqb c sep then [] :: split sep s'
      else match split sep s' with
           | [] => [[c]]
           | l :: ls => (c :: l) :: ls
           end
  end.

(** [s.replace(/\r/g, '\n')] *)
Definition replaceCR (s : str) : str :=
  map (fun c => if N.eqb c 13 then 10%N else c) s.

(** [s.replace(/\r\n/g, '\n')] *)
Fixpoint replaceCRLF (s : str) : str :=
  match s with
  | [] => []
  | c :: t =>
      match t with
      | d :: u =>
          if N.eqb c 13 && N.eqb d 10 then 10%N :: replaceCRLF u
          else c :: replaceCRLF t
      | [] => [c]
      end
  end.

(** [new TextEncoder().encode(s)]: UTF-8, a surrogate pair giving one
    four-byte sequence and a lone surrogate giving U+FFFD. *)
Definition isHighSurrogate (c : N) : bool := ((55296 <=? c) && (c <=? 56319))%N.
Definition isLowSurrogate (c : N) : bool := ((56320 <=? c) && (c <=? 57343))%N.

Definition utf8_3 (c : N) : list N :=
  [N.lor 224 (N.shiftr c 12);
   N.lor 128 (N.land (N.shiftr c 6) 63);
   N.lor 128 (N.land c 63)].

Definition utf8_4 (cp : N) : list N :=
  [N.lor 240 (N.shiftr cp 18);
   N.lor 128 (N.land (N.shiftr cp 12) 63);
   N.lor 128 (N.land (N.shiftr cp 6) 63);
   N.lor 128 (N.land cp 63)].

Fixpoint encode (s : str) : list N :=
  match s with
  | [] => []
  | c :: t =>
      if (c <? 128)%N then c :: encode t
      else if (c <? 2048)%N then
        N.lor 192 (N.shiftr c 6) :: N.lor 128 (N.land c 63) :: encode t
      else if isHighSurrogate c then
        match t with
        | d :: u =>
            if isLowSurrogate d then
              utf8_4 (65536 + N.shiftl (c - 55296) 10 + (d - 56320)) ++ encode u
            else utf8_3 65533 ++ encode t
        | [] => utf8_3 65533
        end
      else if isLowSurrogate c then utf8_3 65533 ++ encode t
      else utf8_3 c ++ encode t
  end.

(** [n.toString(16)] of a non-negative integer. *)
Definition toString16 (n : N) : str :=
  lit (HexadecimalString.NilZero.string_of_uint (N.to_hex_uint n)).

(** [`${n}`] of a non-negative integer. *)
Definition toString10 (n : nat) : str :=
  lit (DecimalString.NilZero.string_of_uint (Nat.to_uint n)).

(** [s.padStart(w, c)] for a one-character filler. *)
Definition padStart (w : nat) (c : N) (s : str) : str :=
  repeat c (w - length s) ++ s.

(** [Math.ceil(a / b)] of two non-negative integers, [b] positive. *)
Definition ceilDiv (a b : nat) : nat :=
  a / b + (if a mod b =? 0 then 0 else 1).

End JS.

Abbreviation str := JS.str.
Abbreviation lit := JS.lit.
Abbreviation tpl := JS.tpl.
Abbreviation crlf := JS.crlf.

(* ================================================================== *)
(** ** The transfer encoder *)

(** [this.chunkSize]: assigned once, in the constructor. *)
Definition this_chunkSize : nat := 1024.

(** The first argument of [wrapCodeHex]: a string or an array of bytes. *)
Inductive BinCode :=
| CodeString (s : str)
| CodeBytes (b : list N).

Definition wrapCodeHex (binCode : BinCode) (saveTo : option str) (append : bool) : str :=
  let chunkSize := this_chunkSize in
  let bytes :=
    match binCode with
    | CodeString s => JS.encode s
    | CodeBytes b => b
    end in
  let hexStr :=
    fold_left (fun hexStr b => hexStr ++ JS.padStart 2 48 (JS.toString16 b)) bytes [] in
  let output := [] in
  let output := output ++ tpl "import gc; gc.collect(); b_ = bytearray("
                       ++ JS.toString10 (length bytes) ++ tpl "); bi_ = 0" ++ crlf in
  let chunks := JS.ceilDiv (length hexStr) chunkSize in
  let output :=
    fold_left
      (fun output i =>
         let chunk := JS.substring hexStr (i * chunkSize) ((i + 1) * chunkSize) in
         let output := output ++ tpl "c_ = b'" ++ chunk ++ tpl "'" ++ crlf in
         let output := output
           ++ tpl "for i in range(len(c_)//2): b_[bi_+i] = int(c_[2*i:2*i+2], 16).to_bytes(1, 'little')[0]"
           ++ crlf in
         let output := output ++ tpl "_EMPTY_" ++ crlf in
         output ++ tpl "bi_ += len(c_)//2; print(`.`, end=``); del c_; gc.collect()" ++ crlf)
      (seq 0 chunks) output in
  match saveTo with
  | None =>
      let output := output
        ++ tpl "print(` Running.`); print(`--------`); b_ = b_.decode()" ++ crlf in
      let output := output ++ tpl "exec(b_)" ++ crlf in
      output ++ tpl "del b_" ++ crlf
  | Some saveTo =>
      let writeMode := if append then tpl "ab" else tpl "wb" in
      let output := output ++ tpl "f_ = open('" ++ saveTo ++ tpl "', '" ++ writeMode ++ tpl "')" ++ crlf in
      let output := output ++ tpl "_ = f_.write(b_)" ++ crlf in
      let output := output ++ tpl "f_.close();" ++ crlf in
      output ++ tpl "del f_; del b_; gc.collect(); print(` Done.`)" ++ crlf
  end.

(* ================================================================== *)
(** ** The controller, its environment and the monad of its methods *)

(** An entry of [serialBuffer] ([type] is always ['received']). *)
Record BufferEntry := { data : str; timestamp : N }.

(** A buffer consumer.  Consumers are objects held in a [Set] and mutated in
    place; [oid] is the object's identity. *)
Record Consumer := { oid : nat; id : str; position : nat }.

(** Operations on the transport's handles that may reject. *)
Inductive TransportOp :=
| ReaderCancel        (* reader.cancel() *)
| ReaderReleaseLock   (* reader.releaseLock() *)
| WriterClose         (* writer.close() *)
| PortClose.          (* port.close() *)

(** What a run leaves behind, in the order performed: the writes and handle
    operations on the transport, and the teardown steps on the controller. *)
Inductive Event :=
| EvWrite (bytes : list N)       (* writer.write(bytes) *)
| EvOp (op : TransportOp)
| EvStopBackgroundReading        (* stopBackgroundReading() *)
| EvClearBuffer                  (* serialBuffer = [] *)
| EvClearConsumers.              (* bufferConsumers.clear() *)

Record World := {
  (* the fields of the controller; a handle is [true] when it is not null *)
  port : bool;
  reader : bool;
  writer : bool;
  connected : bool;
  lastLineEcho : str;
  serialBuffer : list BufferEntry;
  backgroundReadActive : bool;
  backgroundReadPromise : bool;
  bufferConsumers : list Consumer;
  lastBufferPosition : nat;
  (* the environment *)
  nextOid : nat;                 (* identity of the next object created *)
  polls : list str;              (* results of the coming readWithTimeout calls *)
  faulty : TransportOp -> bool;  (* the handle operations that reject *)
  trace : list Event
}.

Definition set_port (v : bool) (w : World) : World :=
  Build_World v (reader w) (writer w) (connected w) (lastLineEcho w) (serialBuffer w)
    (backgroundReadActive w) (backgroundReadPromise w) (bufferConsumers w)
    (lastBufferPosition w) (nextOid w) (polls w) (faulty w) (trace w).
Definition set_reader (v : bool) (w : World) : World :=
  Build_World (port w) v (writer w) (connected w) (lastLineEcho w) (serialBuffer w)
    (backgroundReadActive w) (backgroundReadPromise w) (bufferConsumers w)
    (lastBufferPosition w) (nextOid w) (polls w) (faulty w) (trace w).
Definition set_writer (v : bool) (w : World) : World :=
  Build_World (port w) (reader w) v (connected w) (lastLineEcho w) (serialBuffer w)
    (backgroundReadActive w) (backgroundReadPromise w) (bufferConsumers w)
    (lastBufferPosition w) (nextOid w) (polls w) (faulty w) (trace w).
Definition set_connected (v : bool) (w : World) : World :=
  Build_World (port w) (reader w) (writer w) v (lastLineEcho w) (serialBuffer w)
    (backgroundReadActive w) (backgroundReadPromise w) (bufferConsumers w)
    (lastBufferPosition w) (nextOid w) (polls w) (faulty w) (trace w).
Definition set_lastLineEcho (v : str) (w : World) : World :=
  Build_World (port w) (reader w) (writer w) (connected w) v (serialBuffer w)
    (backgroundReadActive w) (backgroundReadPromise w) (bufferConsumers w)
    (lastBufferPosition w) (nextOid w) (polls w) (faulty w) (trace w).
Definition set_serialBuffer (v : list BufferEntry) (w : World) : World :=
  Build_World (port w) (reader w) (writer w) (connected w) (lastLineEcho w) v
    (backgroundReadActive w) (backgroundReadPromise w) (bufferConsumers w)
    (lastBufferPosition w) (nextOid w) (polls w) (faulty w) (trace w).
Definition set_backgroundReadActive (v : bool) (w : World) : World :=
  Build_World (port w) (reader w) (writer w) (connected w) (lastLineEcho w) (serialBuffer w)
    v (backgroundReadPromise w) (bufferConsumers w)
    (lastBufferPosition w) (nextOid w) (polls w) (faulty w) (trace w).
Definition set_backgroundReadPromise (v : bool) (w : World) : World :=
  Build_World (port w) (reader w) (writer w) (connected w) (lastLineEcho w) (serialBuffer w)
    (backgroundReadActive w) v (bufferConsumers w)
    (lastBufferPosition w) (nextOid w) (polls w) (faulty w) (trace w).
Definition set_bufferConsumers (v : list Consumer) (w : World) : World :=
  Build_World (port w) (reader w) (writer w) (connected w) (lastLineEcho w) (serialBuffer w)
    (backgroundReadActive w) (backgroundReadPromise w) v
    (lastBufferPosition w) (nextOid w) (polls w) (faulty w) (trace w).
Definition set_lastBufferPosition (v : nat) (w : World) : World :=
  Build_World (port w) (reader w) (writer w) (connected w) (lastLineEcho w) (serialBuffer w)
    (backgroundReadActive w) (backgroundReadPromise w) (bufferConsumers w)
    v (nextOid w) (polls w) (faulty w) (trace w).
Definition set_nextOid (v : nat) (w : World) : World :=
  Build_World (port w) (reader w) (writer w) (connected w) (lastLineEcho w) (serialBuffer w)
    (backgroundReadActive w) (backgroundReadPromise w) (bufferConsumers w)
    (lastBufferPosition w) v (polls w) (faulty w) (trace w).
Definition set_polls (v : list str) (w : World) : World :=
  Build_World (port w) (reader w) (writer w) (connected w) (lastLineEcho w) (serialBuffer w)
    (backgroundReadActive w) (backgroundReadPromise w) (bufferConsumers w)
    (lastBufferPosition w) (nextOid w) v (faulty w) (trace w).
Definition set_trace (v : list Event) (w : World) : World :=
  Build_World (port w) (reader w) (writer w) (connected w) (lastLineEcho w) (serialBuffer w)
    (backgroundReadActive w) (backgroundReadPromise w) (bufferConsumers w)
    (lastBufferPosition w) (nextOid w) (polls w) (faulty w) v.

Definition emit (e : Event) (w : World) : World := set_trace (trace w ++ [e]) w.

(** The controller as the constructor leaves it, in a given environment. *)
Definition newRobotController (polls : list str) (faulty : TransportOp -> bool) : World :=
  Build_World false false false false [] [] false false [] 0 0 polls faulty [].

(** The errors the methods throw. *)
Inductive Error :=
| NotConnected               (* 'Not connected to device' *)
| NotConnectedCallConnect    (* 'Not connected to device. Call connect() first.' *)
| DeviceNotResponding        (* 'Device is not responding. Try unplugging ...' *)
| SendLineFailed             (* 'Failed to send line to device' *)
| RetriesFailed              (* 'Failed to send line after retries' *)
| FileNotFound (filename : str)   (* `File '${filename}' not found on device` *)
| ReadContentFailed          (* 'Failed to read file content from device' *)
| TypeError                  (* a property read or a method call on null *)
| TransportError (op : TransportOp).   (* a handle operation rejected *)

(** How a call ends: it returns, it throws, or it is still waiting for a poll
    when the polls the environment provides run out. *)
Inductive Outcome (A : Type) :=
| Ret (a : A)
| Throw (e : Error)
| Pending.
Arguments Ret {A} a.
Arguments Throw {A} e.
Arguments Pending {A}.

Definition M (A : Type) : Type := World -> Outcome A * World.

Definition ret {A} (a : A) : M A := fun w => (Ret a, w).
Definition throw {A} (e : Error) : M A := fun w => (Throw e, w).
Definition bind {A B} (m : M A) (f : A -> M B) : M B :=
  fun w =>
    match m w with
    | (Ret a, w') => f a w'
    | (Throw e, w') => (Throw e, w')
    | (Pending, w') => (Pending, w')
    end.

Declare Scope robot_scope.
Delimit Scope robot_scope with robot.
Notation "x <- m ;; k" := (bind m (fun x => k))
  (at level 61, m at next level, right associativity) : robot_scope.
Notation "m ;; k" := (bind m (fun _ => k))
  (at level 61, right associativity) : robot_scope.
Open Scope robot_scope.

(** A [for (const x of xs)] loop whose body may throw. *)
Fixpoint forEach {A} (xs : list A) (body : A -> M unit) : M unit :=
  match xs with
  | [] => ret tt
  | x :: xs' => body x ;; forEach xs' body
  end.

(** [await this.writer.write(bytes)] *)
Definition writer_write (bytes : list N) : M unit :=
  fun w => if writer w then (Ret tt, emit (EvWrite bytes) w) else (Throw TypeError, w).

(** A handle operation that may reject. *)
Definition transportOp (op : TransportOp) : M unit :=
  fun w =>
    let w := emit (EvOp op) w in
    if faulty w op then (Throw (TransportError op), w) else (Ret tt, w).

(* ================================================================== *)
(** ** The shared receive buffer and its consumers *)

(** [createBufferConsumer(consumerId)] *)
Definition createBufferConsumer (consumerId : str) (w : World) : Consumer * World :=
  let consumer := {| oid := nextOid w; id := consumerId;
                     position := length (serialBuffer w) |} in
  (consumer,
   set_bufferConsumers (bufferConsumers w ++ [consumer]) (set_nextOid (S (nextOid w)) w)).

(** [removeBufferConsumer(consumer)] *)
Definition removeBufferConsumer (consumer : Consumer) (w : World) : World :=
  set_bufferConsumers
    (filter (fun c => negb (oid c =? oid consumer)) (bufferConsumers w)) w.

(** [newData.map(entry => entry.data).join('')] *)
Definition joinData (entries : list BufferEntry) : str := flat_map data entries.

(** [consumer.readNew()] on the consumer of identity [o], for a consumer
    that is registered: the cursor of a consumer is kept in its entry of
    [bufferConsumers].  In the source a consumer that has been removed from
    the set keeps a cursor of its own and can still read; such calls are
    outside this model, and the properties proved of [readNew] assume a
    registered consumer. *)
Definition readNew (o : nat) (w : World) : str * World :=
  match find (fun c => oid c =? o) (bufferConsumers w) with
  | None => ([], w)
  | Some consumer =>
      let newData := skipn (position consumer) (serialBuffer w) in
      (joinData newData,
       set_bufferConsumers
         (map (fun c => if oid c =? o
                        then {| oid := oid c; id := id c;
                                position := length (serialBuffer w) |}
                        else c) (bufferConsumers w)) w)
  end.

(** The retention policy at the end of an iteration of [backgroundReadLoop]
    that read the non-empty [chunk] at time [now]. *)
Definition storeChunk (chunk : str) (now : N) (w : World) : World :=
  let bufferEntry := {| data := chunk; timestamp := now |} in
  let w := set_serialBuffer (serialBuffer w ++ [bufferEntry]) w in
  if 10000 <? length (serialBuffer w) then
    let w := set_serialBuffer
               (skipn (length (serialBuffer w) - 5000) (serialBuffer w)) w in
    set_bufferConsumers
      (map (fun consumer =>
              if 5000 <? position consumer
              then {| oid := oid consumer; id := id consumer;
                      position := position consumer - 5000 |}
              else {| oid := oid consumer; id := id consumer; position := 0 |})
           (bufferConsumers w)) w
  else w.

(** What [reader.read()] resolves to: a value (decoded), the end of the
    stream, or a rejection. *)
Inductive ReadResult :=
| ReadValue (chunk : str) (now : N)
| ReadDone
| ReadError.

(** [backgroundReadLoop()] over the results the coming reads resolve to. *)
Fixpoint backgroundReadLoop (reads : list ReadResult) (w : World) : World :=
  if backgroundReadActive w && connected w && reader w then
    match reads with
    | [] => w
    | ReadDone :: _ => w
    | ReadError :: rest => backgroundReadLoop rest w
    | ReadValue chunk now :: rest =>
        backgroundReadLoop rest
          (if JS.falsy chunk then w else storeChunk chunk now w)
    end
  else w.

(* ================================================================== *)
(** ** The prompt scanner *)

(** The locals of [readUntilPrompt]; [echo] is [this.lastLineEcho]. *)
Record Scan := {
  receiveMode : nat;     (* 0: echo, 1: data, 2: prompt *)
  pending : str;
  retryCount : nat;
  output : str;
  echo : str
}.

(** How one iteration of the [while] loop ends. *)
Inductive Step :=
| Continue (st : Scan)
| Break (st : Scan)
| ReturnNull (st : Scan).

(** Lines 336-345: the end of an iteration that emits [processData]. *)
Definition scanEmit (st : Scan) (processData : str) : Step :=
  let pending' := if JS.falsy (pending st) then pending st else [] in
  let st := {| receiveMode := receiveMode st; pending := pending';
               retryCount := retryCount st; output := output st ++ processData;
               echo := echo st |} in
  if receiveMode st =? 2 then Break st else Continue st.

(** Lines 327-334: prompt detection on [processData]. *)
Definition scanPrompt (st : Scan) (processData : str) : Step :=
  let stripped := JS.trim processData in
  if JS.endsWith stripped (lit "...") || JS.endsWith stripped (lit ">>>") then
    scanEmit {| receiveMode := 2; pending := pending st; retryCount := retryCount st;
                output := output st; echo := echo st |}
             (JS.substring stripped 0 (length stripped - 3))
  else if JS.endsWith processData (lit ".") || JS.endsWith processData (lit ">") then
    Continue {| receiveMode := receiveMode st; pending := processData;
                retryCount := retryCount st; output := output st; echo := echo st |}
  else scanEmit st processData.

(** The body of the [while] loop on the result [data] of a poll. *)
Definition scanStep (st : Scan) (data : str) : Step :=
  if JS.falsy data then
    let st := {| receiveMode := receiveMode st; pending := pending st;
                 retryCount := S (retryCount st); output := output st;
                 echo := echo st |} in
    if 1 <? retryCount st then ReturnNull st else Continue st
  else
    let processData := if JS.falsy (pending st) then data else pending st ++ data in
    if receiveMode st =? 0 then
      match JS.indexOf processData crlf with
      | None =>
          Continue {| receiveMode := receiveMode st; pending := processData;
                      retryCount := retryCount st; output := output st;
                      echo := echo st |}
      | Some idx =>
          let st := {| receiveMode := 1; pending := [];
                       retryCount := retryCount st; output := output st;
                       echo := JS.substring processData 0 idx |} in
          let processData := JS.substringFrom processData (idx + 2) in
          if JS.falsy processData then Continue st else scanPrompt st processData
      end
    else scanPrompt st processData.

(** How the loop ends on a list of polls: the call returned ([None] is the
    source's [null]) leaving some polls unread, or it is still waiting. *)
Inductive ScanResult :=
| Returned (r : option str) (st : Scan) (rest : list str)
| Waiting (st : Scan).

Fixpoint scanLoop (st : Scan) (polls : list str) : ScanResult :=
  if retryCount st <? 3 then
    match polls with
    | [] => Waiting st
    | data :: rest =>
        match scanStep st data with
        | Continue st' => scanLoop st' rest
        | Break st' => Returned (Some (output st')) st' rest
        | ReturnNull st' => Returned None st' rest
        end
    end
  else Returned (Some (output st)) st polls.

Definition scanStart (lastLineEcho : str) : Scan :=
  {| receiveMode := 0; pending := []; retryCount := 0; output := [];
     echo := lastLineEcho |}.

(** [readUntilPrompt()] *)
Definition readUntilPrompt : M (option str) :=
  fun w =>
    if negb (connected w) then (Throw NotConnected, w)
    else
      let (consumer, w) := createBufferConsumer (lit "readUntilPrompt") w in
      match scanLoop (scanStart (lastLineEcho w)) (polls w) with
      | Returned r st rest =>
          (Ret r, removeBufferConsumer consumer
                    (set_polls rest (set_lastLineEcho (echo st) w)))
      | Waiting st => (Pending, set_polls [] (set_lastLineEcho (echo st) w))
      end.

(* ================================================================== *)
(** ** The line sender and the raw executor *)

(** [sendLine(line)] *)
Definition sendLine (line : str) : M (option str) :=
  fun w =>
    if negb (connected w) || negb (writer w) then (Throw NotConnected, w)
    else (writer_write (JS.encode (line ++ crlf)) ;; readUntilPrompt) w.

Definition ctrlC : str := [3%N].

(** Lines 464-470: the [for (let attempt = 0; attempt < 3; attempt++)] loop,
    [attempts] being the iterations left; the result is [success]. *)
Fixpoint retryLoop (attempts : nat) (actualLine : str) : M bool :=
  match attempts with
  | 0 => ret false
  | S attempts' =>
      lineResult <- sendLine actualLine ;;
      match lineResult with
      | Some r =>
          if negb (JS.includes r (lit "Traceback")) then ret true
          else retryLoop attempts' actualLine
      | None => retryLoop attempts' actualLine
      end
  end.

(** Lines 457-474: what the loop does with a line that is not skipped. *)
Definition sendActualLine (retry : bool) (actualLine : str) : M unit :=
  if negb retry || JS.startsWith actualLine (lit "exec(") then
    r <- sendLine actualLine ;;
    match r with
    | None => throw SendLineFailed
    | Some _ => ret tt
    end
  else
    success <- retryLoop 3 actualLine ;;
    if negb success then throw RetriesFailed else ret tt.

(** Lines 449-475: the [for (const line of lines)] loop. *)
Fixpoint sendLines (retry : bool) (lines : list str) : M unit :=
  match lines with
  | [] => ret tt
  | line :: rest =>
      let trimmedLine := JS.trim line in
      if JS.falsy trimmedLine then sendLines retry rest
      else
        let actualLine :=
          if JS.eqb trimmedLine (lit "_EMPTY_") then [] else trimmedLine in
        sendActualLine retry actualLine ;; sendLines retry rest
  end.

(** Lines 429-443: two interrupts, then the pending output is drained. *)
Definition interrupt : M unit :=
  writer_write (JS.encode ctrlC) ;;
  writer_write (JS.encode ctrlC) ;;
  data <- readUntilPrompt ;;
  match data with
  | None => throw DeviceNotResponding
  | Some _ => ret tt
  end.

(** [executeCodeRaw(code, retry)] *)
Definition executeCodeRaw (code : str) (retry : bool) : M unit :=
  fun w =>
    if negb (connected w) then (Throw NotConnected, w)
    else
      (interrupt ;;
       let normalizedCode := JS.replaceCR code in
       let lines := JS.split 10 normalizedCode in
       sendLines retry lines) w.

(* ================================================================== *)
(** ** The file transfer orchestrator *)

(** [code.match(/# filename:\s*(\S+)/)]: the first capture of the leftmost
    match. *)
Fixpoint takeNonWhiteSpace (s : str) : str :=
  match s with
  | [] => []
  | c :: t => if JS.isWhiteSpace c then [] else c :: takeNonWhiteSpace t
  end.

Definition matchFilenameAt (s : str) : option str :=
  if JS.startsWith s (lit "# filename:") then
    let m := takeNonWhiteSpace (JS.trimStart (skipn 11 s)) in
    if JS.falsy m then None else Some m
  else None.

Fixpoint matchFilename (s : str) : option str :=
  match matchFilenameAt s with
  | Some m => Some m
  | None => match s with
            | [] => None
            | _ :: t => matchFilename t
            end
  end.

(** The iterations of the loop of [uploadCode]: the chunk and the append
    flag of each.  The source reads [const chunkSize = this.chunkSize // 2;]:
    in JavaScript the two slashes open a comment, so [chunkSize] is
    [this.chunkSize]. *)
Definition uploadChunks (code : str) : list (str * bool) :=
  let chunkSize := this_chunkSize in
  let chunks := JS.ceilDiv (length code) chunkSize in
  map (fun i =>
         let chunk := JS.substring code (i * chunkSize) ((i + 1) * chunkSize) in
         let append := 0 <? i in
         (chunk, append))
      (seq 0 chunks).

(** [uploadCode(code, filename)] *)
Definition uploadCode (code filename : str) : M bool :=
  fun w =>
    if negb (connected w) then (Throw NotConnectedCallConnect, w)
    else
      let filename :=
        if JS.startsWith code (lit "# filename: ") then
          match matchFilename code with
          | Some m => m
          | None => filename
          end
        else filename in
      (forEach (uploadChunks code)
         (fun '(chunk, append) =>
            let wrappedCode := wrapCodeHex (CodeString chunk) (Some filename) append in
            executeCodeRaw wrappedCode true) ;;
       ret true) w.

Definition startMarker : str := lit "===FILE_START===".
Definition endMarker : str := lit "===FILE_END===".

Definition probeTry (filename : str) : str :=
  tpl "try: f = open('" ++ filename ++ tpl "', 'r'); f.close(); print(`FILE_EXISTS`)".
Definition probeExcept : str := tpl "except: print(`FILE_NOT_FOUND`)".
Definition readCommand (filename : str) : str :=
  tpl "f = open('" ++ filename ++ tpl "', 'r'); content = f.read(); f.close()".
Definition printCommand : str :=
  tpl "print(`===FILE_START===`, end=``); print(content, end=``); print(`===FILE_END===`)".

(** [downloadCode(filename)]; the [catch] logs and rethrows. *)
Definition downloadCode (filename : str) : M str :=
  fun w =>
    if negb (connected w) then (Throw NotConnectedCallConnect, w)
    else
      (interrupt ;;
       sendLine (probeTry filename) ;;
       sendLine probeExcept ;;
       checkResult <- sendLine [] ;;
       match checkResult with
       | None => throw TypeError        (* null.includes(...) *)
       | Some checkResult =>
           if JS.includes checkResult (lit "FILE_NOT_FOUND") then
             throw (FileNotFound filename)
           else
             sendLine (readCommand filename) ;;
             result <- sendLine printCommand ;;
             match result with
             | None => throw TypeError  (* null.indexOf(...) *)
             | Some result =>
                 match JS.indexOf result startMarker, JS.indexOf result endMarker with
                 | Some startIndex, Some endIndex =>
                     ret (JS.replaceCRLF
                            (JS.substring result (startIndex + length startMarker)
                               endIndex))
                 | _, _ => throw ReadContentFailed
                 end
             end
       end) w.

(* ================================================================== *)
(** ** Teardown of the connection *)

(** [stopBackgroundReading()] *)
Definition stopBackgroundReading : M unit :=
  fun w =>
    let w := set_backgroundReadActive false w in
    let w := if backgroundReadPromise w then set_backgroundReadPromise false w else w in
    (Ret tt, emit EvStopBackgroundReading w).

Definition when (b : bool) (m : M unit) : M unit := if b then m else ret tt.

Definition update (f : World -> World) : M unit := fun w => (Ret tt, f w).

(** [disconnect()]; the [catch] logs and rethrows. *)
Definition disconnect : M unit :=
  stopBackgroundReading ;;
  (fun w => when (reader w)
              (transportOp ReaderCancel ;;
               transportOp ReaderReleaseLock ;;
               update (set_reader false)) w) ;;
  (fun w => when (writer w)
              (transportOp WriterClose ;;
               update (set_writer false)) w) ;;
  (fun w => when (port w)
              (transportOp PortClose ;;
               update (set_port false)) w) ;;
  update (set_connected false) ;;
  update (fun w => emit EvClearBuffer (set_serialBuffer [] w)) ;;
  update (set_lastBufferPosition 0) ;;
  update (fun w => emit EvClearConsumers (set_bufferConsumers [] w)).

(** [handleUnexpectedDisconnect()]: the cleanup of [disconnect] without any
    operation on the handles; its [catch] swallows what the body throws, and
    nothing in the body does. *)
Definition handleUnexpectedDisconnect : M unit :=
  stopBackgroundReading ;;
  update (set_reader false) ;;
  update (set_writer false) ;;
  update (set_port false) ;;
  update (set_connected false) ;;
  update (fun w => emit EvClearBuffer (set_serialBuffer [] w)) ;;
  update (set_lastBufferPosition 0) ;;
  update (fun w => emit EvClearConsumers (set_bufferConsumers [] w)).

(** [startBackgroundReading()] *)
Definition startBackgroundReading (w : World) : World :=
  if backgroundReadActive w then w
  else set_backgroundReadPromise true (set_backgroundReadActive true w).

(** [isConnected()] *)
Definition isConnected (w : World) : bool := connected w.

(** [consumer.reset()] on the consumer of identity [o]. *)
Definition resetConsumer (o : nat) (w : World) : World :=
  set_bufferConsumers
    (map (fun c => if oid c =? o
                   then {| oid := oid c; id := id c;
                           position := length (serialBuffer w) |}
                   else c) (bufferConsumers w)) w.

(** How a promise of the browser settles during [connect()]: it resolves, or
    it rejects with an error whose [message] may be missing. *)
Inductive Attempt :=
| Resolves
| Rejects (message : option str).

(** What [connect()] meets in the browser: whether [navigator] has [serial],
    and how [requestPort], [port.open], [getReader] and [getWriter] end. *)
Record Browser := {
  serialInNavigator : bool;
  requestPort : Attempt;
  portOpen : Attempt;
  getReader : Attempt;
  getWriter : Attempt
}.

(** How [connect()] ends: it returns a boolean or throws an error with the
    given [message]. *)
Inductive ConnectResult :=
| ConnectReturns (b : bool)
| ConnectThrows (message : option str).

(** The [try] block of [connect()]: [None] when it runs to its [return true],
    the error caught otherwise. *)
Definition connectAttempt (browser : Browser) (w : World) : option (option str) * World :=
  match requestPort browser with
  | Rejects m => (Some m, w)
  | Resolves =>
      let w := set_port true w in
      match portOpen browser with
      | Rejects m => (Some m, w)
      | Resolves =>
          match getReader browser with
          | Rejects m => (Some m, w)
          | Resolves =>
              let w := set_reader true w in
              match getWriter browser with
              | Rejects m => (Some m, w)
              | Resolves =>
                  let w := set_writer true w in
                  let w := set_connected true w in
                  (None, startBackgroundReading w)
              end
          end
      end
  end.

(** [connect()] *)
Definition connect (browser : Browser) (w : World) : ConnectResult * World :=
  if negb (serialInNavigator browser) then
    (ConnectThrows (Some (lit "Web Serial API is not supported in this browser")), w)
  else
    match connectAttempt browser w with
    | (None, w) => (ConnectReturns true, w)
    | (Some error_message, w) =>
        let cancelled :=
          match error_message with
          | Some message =>
              negb (JS.falsy message)
              && JS.includes message (lit "No port selected by the user")
          | None => false
          end in
        if cancelled then (ConnectReturns false, w)
        else (ConnectThrows error_message, w)
    end.

(** The file [uploadCode(code, filename)] writes to: the argument, unless
    the payload begins with a filename directive that names another. *)
Definition uploadTarget (code filename : str) : str :=
  if JS.startsWith code (lit "# filename: ") then
    match matchFilename code with
    | Some m => m
    | None => filename
    end
  else filename.

(** The controller as a successful [connect()] leaves it, in a given
    environment. *)
Definition connectedRobot (polls : list str) (faulty : TransportOp -> bool) : World :=
  Build_World true true true true [] [] true true [] 0 0 polls faulty [].

(* ================================================================== *)
(** ** Notions used in the statements, and the worlds of the examples *)

(** The chunks a [for (i = 0; i < Math.ceil(len / c); i++)] loop cuts with
    [substring(i * c, (i + 1) * c)]. *)
Definition slices (s : str) (c : nat) : list str :=
  map (fun i => JS.substring s (i * c) ((i + 1) * c)) (seq 0 (JS.ceilDiv (length s) c)).

(** The two lowercase hexadecimal digits of a byte. *)
Definition hexDigit (d : N) : N := (if d <? 10 then 48 + d else 87 + d)%N.
Definition hexByte (b : N) : str := [hexDigit (b / 16); hexDigit (b mod 16)]%N.

(** A script as its lines, each closed by the line terminator. *)
Definition unlines (ls : list str) : str := flat_map (fun l => l ++ crlf) ls.

(** The four lines emitted for one chunk of hex text. *)
Definition chunkLines (chunk : str) : list str :=
  [ tpl "c_ = b'" ++ chunk ++ tpl "'";
    tpl "for i in range(len(c_)//2): b_[bi_+i] = int(c_[2*i:2*i+2], 16).to_bytes(1, 'little')[0]";
    tpl "_EMPTY_";
    tpl "bi_ += len(c_)//2; print(`.`, end=``); del c_; gc.collect()" ].

(** The lines that close the script. *)
Definition closingLines (saveTo : option str) (append : bool) : list str :=
  match saveTo with
  | None =>
      [ tpl "print(` Running.`); print(`--------`); b_ = b_.decode()";
        tpl "exec(b_)";
        tpl "del b_" ]
  | Some path =>
      [ tpl "f_ = open('" ++ path ++ tpl "', '" ++ (if append then tpl "ab" else tpl "wb")
          ++ tpl "')";
        tpl "_ = f_.write(b_)";
        tpl "f_.close();";
        tpl "del f_; del b_; gc.collect(); print(` Done.`)" ]
  end.

Definition nonEmpty (s : str) : Prop := s <> [].

(** [st] with its retry counter replaced. *)
Definition withRetry (n : nat) (st : Scan) : Scan :=
  {| receiveMode := receiveMode st; pending := pending st; retryCount := n;
     output := output st; echo := echo st |}.

Definition mapStep (f : Scan -> Scan) (s : Step) : Step :=
  match s with
  | Continue st => Continue (f st)
  | Break st => Break (f st)
  | ReturnNull st => ReturnNull (f st)
  end.

Definition stepState (s : Step) : Scan :=
  match s with Continue st | Break st | ReturnNull st => st end.

(** Two empty polls next to each other somewhere in a list of polls. *)
Fixpoint consecutiveEmpty (polls : list str) : bool :=
  match polls with
  | a :: ((b :: _) as rest) => JS.falsy a && JS.falsy b || consecutiveEmpty rest
  | _ => false
  end.

(** The line handed to the sender for a payload line that is not skipped. *)
Definition actualLineOf (line : str) : str :=
  if JS.eqb (JS.trim line) (lit "_EMPTY_") then [] else JS.trim line.

(** An attempt is accepted when its response is not null and does not
    contain the remote-exception marker. *)
Definition accepted (lineResult : option str) : bool :=
  match lineResult with
  | Some r => negb (JS.includes r (lit "Traceback"))
  | None => false
  end.

(** A device that answers the interrupts with a prompt, the first attempt at
    [x = 1] with a traceback and the second with a bare prompt. *)
Definition retryPolls : list str :=
  [ crlf ++ lit ">>> ";
    lit "x = 1" ++ crlf ++ lit "Traceback (most recent call last):" ++ crlf ++ lit ">>> ";
    lit "x = 1" ++ crlf ++ lit ">>> " ].

(** A line is blank when it holds white space only. *)
Definition isBlank (line : str) : bool := forallb JS.isWhiteSpace line.


(** The lines of a payload: it is cut at every CR and at every LF. *)
Fixpoint linesOf (code : str) : list str :=
  match code with
  | [] => [[]]
  | c :: t =>
      if (c =? 13)%N || (c =? 10)%N then [] :: linesOf t
      else match linesOf t with
           | [] => [[c]]
           | l :: ls => (c :: l) :: ls
           end
  end.

(** What the loop sends for a payload line: nothing for a blank line, the
    empty line for the sentinel, the trimmed line otherwise. *)
Definition lineToSend (line : str) : list str :=
  if isBlank line then []
  else if JS.eqb (JS.trim line) (lit "_EMPTY_") then [[]]
  else [JS.trim line].


(** The write [sendLine(l)] performs. *)
Definition lineWrite (l : str) : Event := EvWrite (JS.encode (l ++ crlf)).



(** The polls of a download from a device that holds the file: each command
    is echoed and answered with a prompt, the probe answers [FILE_EXISTS] and
    the print command prints [printed] between the markers. *)
Definition downloadPolls (filename printed : str) : list str :=
  [ crlf ++ lit ">>> ";
    probeTry filename ++ crlf ++ lit "... ";
    probeExcept ++ crlf ++ lit "... ";
    crlf ++ lit "FILE_EXISTS" ++ crlf ++ lit ">>> ";
    readCommand filename ++ crlf ++ lit ">>> ";
    printCommand ++ crlf ++ startMarker ++ printed ++ endMarker ++ crlf ++ lit ">>> " ].

(** The polls of a download whose probe gets no answer: the two polls after
    the empty line are empty. *)
Definition silentProbePolls (filename : str) : list str :=
  [ crlf ++ lit ">>> ";
    probeTry filename ++ crlf ++ lit "... ";
    probeExcept ++ crlf ++ lit "... ";
    []; [] ].

(** The steps of [disconnect] in the order of the source: the background
    reader is stopped, the reader is cancelled and its lock released, the
    writer is closed, the port is closed, the buffer and the consumers are
    cleared. *)
Definition teardownOrder : list Event :=
  [ EvStopBackgroundReading; EvOp ReaderCancel; EvOp ReaderReleaseLock;
    EvOp WriterClose; EvOp PortClose; EvClearBuffer; EvClearConsumers ].

(** Whether the handle a step operates on is held; the steps that touch no
    handle are always due. *)
Definition held (w : World) (e : Event) : bool :=
  match e with
  | EvOp ReaderCancel | EvOp ReaderReleaseLock => reader w
  | EvOp WriterClose => writer w
  | EvOp PortClose => port w
  | _ => true
  end.

(** The steps a [disconnect] started in [w] has to perform: those of
    [teardownOrder], in that order, the operations on a handle that is not
    held left out. *)
Definition teardownPlan (w : World) : list Event := filter (held w) teardownOrder.

(** The steps of a plan up to and including the first operation that
    rejects, and that operation. *)
Fixpoint untilRejection (faulty : TransportOp -> bool) (plan : list Event)
  : list Event * option TransportOp :=
  match plan with
  | [] => ([], None)
  | e :: rest =>
      let (evs, rejected) := untilRejection faulty rest in
      match e with
      | EvOp op => if faulty op then ([e], Some op) else (e :: evs, rejected)
      | _ => (e :: evs, rejected)
      end
  end.

(** How a teardown ends: it rethrows the rejection, or it returns. *)
Definition endOf (rejected : option TransportOp) : Outcome unit :=
  match rejected with
  | Some op => Throw (TransportError op)
  | None => Ret tt
  end.

(** A computation that, started in [w], performs the steps of [plan] up to
    the first rejection and ends accordingly. *)
Definition performs (m : M unit) (plan : list Event) (w : World) : Prop :=
  trace (snd (m w)) = trace w ++ fst (untilRejection (faulty w) plan) /\
  fst (m w) = endOf (snd (untilRejection (faulty w) plan)) /\
  faulty (snd (m w)) = faulty w.

(** The order C4 states: write access is released before read access. *)
Definition statedRank (e : Event) : nat :=
  match e with
  | EvStopBackgroundReading => 0
  | EvOp WriterClose => 1
  | EvOp ReaderCancel => 2
  | EvOp ReaderReleaseLock => 3
  | EvOp PortClose => 4
  | EvClearBuffer => 5
  | EvClearConsumers => 6
  | EvWrite _ => 7
  end.

Fixpoint ascending (ranks : list nat) : bool :=
  match ranks with
  | a :: ((b :: _) as rest) => (a <? b) && ascending rest
  | _ => true
  end.

(** What follows the first step of [disconnect]. *)
Definition disconnect_rest : M unit :=
  (fun w => when (reader w)
              (transportOp ReaderCancel ;;
               transportOp ReaderReleaseLock ;;
               update (set_reader false)) w) ;;
  (fun w => when (writer w)
              (transportOp WriterClose ;;
               update (set_writer false)) w) ;;
  (fun w => when (port w)
              (transportOp PortClose ;;
               update (set_port false)) w) ;;
  update (set_connected false) ;;
  update (fun w => emit EvClearBuffer (set_serialBuffer [] w)) ;;
  update (set_lastBufferPosition 0) ;;
  update (fun w => emit EvClearConsumers (set_bufferConsumers [] w)).

(** A controller whose buffer holds [n] entries, with a consumer at each of
    the given positions. *)
Definition bufferedRobot (n : nat) (positions : list nat) : World :=
  set_bufferConsumers
    (map (fun p => {| oid := p; id := lit "c"; position := p |}) positions)
    (set_serialBuffer (repeat {| data := lit "."; timestamp := 0 |} n)
       (connectedRobot [] (fun _ => false))).

(** A browser in which every step of [connect()] succeeds. *)
Definition willingBrowser : Browser :=
  {| serialInNavigator := true; requestPort := Resolves; portOpen := Resolves;
     getReader := Resolves; getWriter := Resolves |}.

(** The fields of the controller, the trace and the environment set aside. *)
Definition fieldsOf (w : World) :=
  (port w, reader w, writer w, connected w, lastLineEcho w, serialBuffer w,
   backgroundReadActive w, backgroundReadPromise w, bufferConsumers w,
   lastBufferPosition w).

(** What a failing teardown leaves alone. *)
Definition kept (w w' : World) : Prop :=
  connected w' = connected w /\ serialBuffer w' = serialBuffer w /\
  bufferConsumers w' = bufferConsumers w /\ faulty w' = faulty w.

Definition rejection (w : World) (e : Error) : Prop :=
  exists op, e = TransportError op /\ faulty w op = true.

(** A computation that keeps those fields however it ends, and throws only
    the rejection of a handle operation. *)
Definition framed {A} (m : M A) : Prop :=
  forall w, kept w (snd (m w)) /\ (forall e, fst (m w) = Throw e -> rejection w e).

(** A computation that keeps those fields when it throws. *)
Definition framedOnThrow {A} (m : M A) : Prop :=
  forall w e, fst (m w) = Throw e -> kept w (snd (m w)) /\ rejection w e.

(** A transport whose port refuses to close. *)
Definition stuckPort (op : TransportOp) : bool :=
  match op with PortClose => true | _ => false end.

Definition bufferBounded (w : World) : Prop := length (serialBuffer w) <= 10000.

Definition cursorsInRange (w : World) : Prop :=
  Forall (fun c => position c <= length (serialBuffer w)) (bufferConsumers w).

(** The chunks the reads deliver before the stream ends. *)
Fixpoint arrivals (reads : list ReadResult) : list str :=
  match reads with
  | [] => []
  | ReadValue chunk _ :: rest => chunk :: arrivals rest
  | ReadError :: rest => arrivals rest
  | ReadDone :: _ => []
  end.

(** The value of a lowercase hexadecimal digit, and what the loop the script
    runs on the device computes from a chunk of hex text: line 401 emits
    [for i in range(len(c_)//2): b_[bi_+i] = int(c_[2*i:2*i+2], 16)...], one
    byte for each pair of digits. *)
Definition hexVal (d : N) : N := (if d <? 58 then d - 48 else d - 87)%N.

Fixpoint decodeHex (c : str) : list N :=
  match c with
  | h :: l :: rest => (hexVal h * 16 + hexVal l)%N :: decodeHex rest
  | _ => []
  end.

(* ================================================================== *)
(** * Proofs *)

(* ------------------------------------------------------------------ *)
(** ** Facts about the string built-ins *)

Lemma eqb_eq (a b : str) : JS.eqb a b = true <-> a = b.
Proof.
  revert b; induction a as [|c a IH]; intros [|d b]; simpl; split;
    try congruence; try reflexivity.
  - intros H. apply andb_true_iff in H as [H1 H2].
    apply N.eqb_eq in H1. apply IH in H2. congruence.
  - intros H. injection H as -> ->. rewrite N.eqb_refl. simpl. now apply IH.
Qed.

Lemma eqb_refl (a : str) : JS.eqb a a = true.
Proof. now apply eqb_eq. Qed.

Lemma falsy_nil (s : str) : JS.falsy s = true <-> s = [].
Proof. destruct s; simpl; split; congruence. Qed.

Lemma firstn_plus {A} (a b : nat) (l : list A) :
  firstn (a + b) l = firstn a l ++ firstn b (skipn a l).
Proof.
  revert l; induction a as [|a IH]; intros l; simpl; [reflexivity|].
  destruct l as [|x l]; simpl.
  - now rewrite firstn_nil.
  - now rewrite IH.
Qed.

(** Inside the string, [substring] with ordered bounds a chunk apart is a
    plain slice. *)
Lemma substring_chunk (s : str) (i c : nat) :
  JS.substring s (i * c) ((i + 1) * c) = firstn c (skipn (i * c) s).
Proof.
  unfold JS.substring.
  assert (Hle : i * c <= (i + 1) * c) by nia.
  destruct (Nat.le_gt_cases (i * c) (length s)) as [Hin|Hout].
  - replace (Nat.min (Nat.min (i * c) (length s)) (Nat.min ((i + 1) * c) (length s)))
      with (i * c) by lia.
    replace (Nat.max (Nat.min (i * c) (length s)) (Nat.min ((i + 1) * c) (length s)))
      with (Nat.min ((i + 1) * c) (length s)) by lia.
    destruct (Nat.le_gt_cases ((i + 1) * c) (length s)) as [H2|H2].
    + f_equal; lia.
    + replace (Nat.min ((i + 1) * c) (length s) - i * c) with (length (skipn (i * c) s))
        by (rewrite length_skipn; lia).
      rewrite firstn_all. symmetry. apply firstn_all2. rewrite length_skipn. lia.
  - rewrite (skipn_all2 s (n := i * c)) by lia.
    rewrite firstn_nil.
    replace (Nat.min (Nat.min (i * c) (length s)) (Nat.min ((i + 1) * c) (length s)))
      with (length s) by lia.
    rewrite skipn_all. now rewrite firstn_nil.
Qed.

(** [ceilDiv a b] is the ceiling of [a / b]: the least [k] with [a <= k * b]. *)
Lemma ceilDiv_upper (a b : nat) : 0 < b -> a <= JS.ceilDiv a b * b.
Proof.
  intros Hb. unfold JS.ceilDiv.
  pose proof (Nat.div_mod_eq a b) as E.
  pose proof (Nat.mod_upper_bound a b ltac:(lia)) as U.
  destruct (Nat.eqb_spec (a mod b) 0); nia.
Qed.

Lemma ceilDiv_least (a b k : nat) : 0 < b -> a <= k * b -> JS.ceilDiv a b <= k.
Proof.
  intros Hb Hk. unfold JS.ceilDiv.
  pose proof (Nat.div_mod_eq a b) as E.
  pose proof (Nat.mod_upper_bound a b ltac:(lia)) as U.
  destruct (Nat.eqb_spec (a mod b) 0); nia.
Qed.

Lemma ceilDiv_below (a b i : nat) : 0 < b -> i < JS.ceilDiv a b -> i * b < a.
Proof.
  intros Hb Hi.
  destruct (Nat.le_gt_cases a (i * b)) as [H|H]; [|exact H].
  pose proof (ceilDiv_least a b i Hb H). lia.
Qed.

Lemma slices_prefix (s : str) (c k : nat) :
  concat (map (fun i => JS.substring s (i * c) ((i + 1) * c)) (seq 0 k)) = firstn (k * c) s.
Proof.
  induction k as [|k IH]; [reflexivity|].
  rewrite seq_S, map_app, concat_app, IH. simpl.
  rewrite app_nil_r, substring_chunk.
  replace (c + k * c) with (k * c + c) by lia.
  now rewrite firstn_plus.
Qed.

Lemma slices_concat (s : str) (c : nat) : 0 < c -> concat (slices s c) = s.
Proof.
  intros Hc. unfold slices. rewrite slices_prefix.
  apply firstn_all2. now apply ceilDiv_upper.
Qed.

Lemma slices_length (s : str) (c : nat) : length (slices s c) = JS.ceilDiv (length s) c.
Proof. unfold slices. now rewrite length_map, length_seq. Qed.

Lemma slices_bounds (s : str) (c : nat) :
  0 < c -> Forall (fun p => 0 < length p <= c) (slices s c).
Proof.
  intros Hc. unfold slices. apply Forall_forall. intros p Hp.
  apply in_map_iff in Hp as (i & <- & Hi). apply in_seq in Hi.
  rewrite substring_chunk.
  assert (i * c < length s) by (apply ceilDiv_below; lia).
  rewrite length_firstn, length_skipn. lia.
Qed.

Lemma fold_left_ext {A B} (f g : A -> B -> A) (xs : list B) (acc : A) :
  (forall a x, f a x = g a x) -> fold_left f xs acc = fold_left g xs acc.
Proof.
  intros E. revert acc; induction xs as [|x xs IH]; intros acc; simpl; [reflexivity|].
  now rewrite E, IH.
Qed.

Lemma fold_left_append {A} (f : A -> str) (xs : list A) (acc : str) :
  fold_left (fun out x => out ++ f x) xs acc = acc ++ flat_map f xs.
Proof.
  revert acc; induction xs as [|x xs IH]; intros acc; simpl.
  - now rewrite app_nil_r.
  - now rewrite IH, app_assoc.
Qed.

(* ------------------------------------------------------------------ *)
(** ** The transfer encoder: the shape of the script *)

Lemma padded_hex_of_byte (b : N) :
  (b < 256)%N -> JS.padStart 2 48 (JS.toString16 b) = hexByte b.
Proof.
  intros Hb.
  assert (All : forallb (fun b => JS.eqb (JS.padStart 2 48 (JS.toString16 b)) (hexByte b))
                  (map N.of_nat (seq 0 256)) = true) by (vm_compute; reflexivity).
  rewrite forallb_forall in All.
  apply eqb_eq, All.
  rewrite <- (N2Nat.id b). apply in_map, in_seq. lia.
Qed.

Lemma hexStr_of_bytes (bytes : list N) :
  Forall (fun b => (b < 256)%N) bytes ->
  fold_left (fun hexStr b => hexStr ++ JS.padStart 2 48 (JS.toString16 b)) bytes []
  = flat_map hexByte bytes.
Proof.
  intros Hall. rewrite fold_left_append. simpl.
  induction Hall as [|b bytes Hb _ IH]; simpl; [reflexivity|].
  now rewrite IH, padded_hex_of_byte.
Qed.

Lemma hexByte_flat_length (bytes : list N) :
  length (flat_map hexByte bytes) = 2 * length bytes.
Proof. induction bytes as [|b bytes IH]; simpl; [reflexivity|]. rewrite IH. lia. Qed.

Lemma unlines_app (a b : list str) : unlines (a ++ b) = unlines a ++ unlines b.
Proof. unfold unlines. apply flat_map_app. Qed.

(** The loop of [wrapCodeHex], for any four line texts: each iteration
    appends the four lines of its chunk. *)
Lemma chunk_loop_lines (chunkOf : nat -> str) (p1 p2 l2 l3 l4 : str)
      (idxs : list nat) (output : str) :
  fold_left
    (fun output i =>
       (((output ++ p1 ++ chunkOf i ++ p2 ++ crlf) ++ l2 ++ crlf) ++ l3 ++ crlf)
       ++ l4 ++ crlf)
    idxs output
  = output
    ++ unlines (flat_map (fun chunk => [p1 ++ chunk ++ p2; l2; l3; l4]) (map chunkOf idxs)).
Proof.
  revert output. induction idxs as [|i idxs IH]; intros output.
  - cbn. now rewrite app_nil_r.
  - cbn [fold_left map flat_map]. rewrite IH, unlines_app.
    unfold unlines at 2. cbn [flat_map]. rewrite app_nil_r.
    now rewrite <- !app_assoc.
Qed.

(** C8.  For a payload of [n] bytes, [wrapCodeHex] emits a first line that
    allocates [bytearray(n)] and sets the offset [bi_] to 0; then, for each of
    the [ceil(2n / 1024)] pieces of at most 1024 characters into which the
    [2n]-character lowercase hex encoding is cut, the line defining the piece
    as a bytes literal, the decoding loop, the [_EMPTY_] sentinel and the
    line that advances the offset, prints a dot and deletes the piece; then
    the closing lines: with a destination, [open] in mode ['wb'] when
    [append] is false and ['ab'] when it is true, the write and the close;
    without one, the decoding and [exec] of the buffer. *)
Theorem wrapCodeHex_script (bytes : list N) (saveTo : option str) (append : bool) :
  Forall (fun b => (b < 256)%N) bytes ->
  exists pieces : list str,
    concat pieces = flat_map hexByte bytes /\
    length (concat pieces) = 2 * length bytes /\
    length pieces = JS.ceilDiv (2 * length bytes) 1024 /\
    Forall (fun p => 0 < length p <= 1024) pieces /\
    wrapCodeHex (CodeBytes bytes) saveTo append
    = unlines
        ([ tpl "import gc; gc.collect(); b_ = bytearray(" ++ JS.toString10 (length bytes)
             ++ tpl "); bi_ = 0" ]
         ++ flat_map chunkLines pieces
         ++ closingLines saveTo append).
Proof.
  intros Hbytes.
  exists (slices (flat_map hexByte bytes) this_chunkSize).
  assert (Hc : 0 < this_chunkSize) by (unfold this_chunkSize; lia).
  rewrite (slices_concat _ _ Hc), slices_length, hexByte_flat_length.
  repeat split; [exact (slices_bounds _ _ Hc)|].
  unfold wrapCodeHex. cbv zeta.
  rewrite (hexStr_of_bytes _ Hbytes).
  rewrite (chunk_loop_lines
             (fun i => JS.substring (flat_map hexByte bytes) (i * this_chunkSize)
                         ((i + 1) * this_chunkSize))).
  fold (slices (flat_map hexByte bytes) this_chunkSize).
  unfold chunkLines. rewrite !unlines_app.
  unfold closingLines, unlines.
  destruct saveTo as [path|]; cbn [flat_map app];
    rewrite ?app_nil_r, <- ?app_assoc; reflexivity.
Qed.

Lemma wrapCodeHex_script_witness :
  Forall (fun b => (b < 256)%N) [104; 105; 10]%N /\
  exists pieces : list str,
    concat pieces = flat_map hexByte [104; 105; 10]%N /\
    length (concat pieces) = 2 * 3 /\
    length pieces = JS.ceilDiv (2 * 3) 1024 /\
    Forall (fun p => 0 < length p <= 1024) pieces /\
    wrapCodeHex (CodeBytes [104; 105; 10]%N) (Some (lit "main.py")) true
    = unlines
        ([ tpl "import gc; gc.collect(); b_ = bytearray(" ++ JS.toString10 3
             ++ tpl "); bi_ = 0" ]
         ++ flat_map chunkLines pieces
         ++ closingLines (Some (lit "main.py")) true).
Proof.
  assert (H : Forall (fun b => (b < 256)%N) [104; 105; 10]%N)
    by (repeat constructor).
  split; [exact H|].
  exact (wrapCodeHex_script [104; 105; 10]%N (Some (lit "main.py")) true H).
Defined.

(* ------------------------------------------------------------------ *)
(** ** The upload loop *)

Lemma uploadChunks_slices (code : str) : map fst (uploadChunks code) = slices code this_chunkSize.
Proof. unfold uploadChunks, slices. cbv zeta. now rewrite map_map. Qed.

Lemma uploadChunks_length (code : str) :
  length (uploadChunks code) = JS.ceilDiv (length code) 1024.
Proof. unfold uploadChunks. cbv zeta. now rewrite length_map, length_seq. Qed.

(** C1, on a payload of 513 characters: the loop of [uploadCode] makes one
    iteration, whose chunk is the whole payload, where chunks of half the
    encoder's chunk size would be two. *)
Theorem uploadCode_chunk_size_is_not_halved :
  let code := repeat 97%N 513 in
  uploadChunks code = [(code, false)] /\
  length (uploadChunks code) <> JS.ceilDiv (length code) (this_chunkSize / 2).
Proof. cbv zeta. split; [vm_compute; reflexivity | vm_compute; discriminate]. Qed.

(* ------------------------------------------------------------------ *)
(** ** The prompt scanner and its retry counter *)

Lemma withRetry_same (st : Scan) : withRetry (retryCount st) st = st.
Proof. now destruct st. Qed.

Lemma withRetry_twice (n m : nat) (st : Scan) : withRetry n (withRetry m st) = withRetry n st.
Proof. reflexivity. Qed.

(** An empty poll only counts: the second one of the call ends it. *)
Lemma scanStep_empty (st : Scan) :
  scanStep st [] =
  if 1 <=? retryCount st then ReturnNull (withRetry (S (retryCount st)) st)
  else Continue (withRetry (S (retryCount st)) st).
Proof.
  unfold scanStep. cbn [JS.falsy retryCount].
  destruct (retryCount st) as [|[|n]]; reflexivity.
Qed.

Ltac scan_cases :=
  repeat match goal with
         | |- context [if ?b then _ else _] => destruct b
         | |- context [match ?o with Some _ => _ | None => _ end] => destruct o
         end.

(** A poll that returns data never reads the retry counter, never changes it
    and never makes the call return null. *)
Lemma scanStep_data (st : Scan) (d : str) (n : nat) :
  nonEmpty d ->
  scanStep (withRetry n st) d = mapStep (withRetry n) (scanStep st d) /\
  (forall st', scanStep st d <> ReturnNull st') /\
  retryCount (stepState (scanStep st d)) = retryCount st.
Proof.
  intros Hd. destruct d as [|c d]; [now elim Hd|].
  unfold scanStep, scanPrompt, scanEmit. cbn [JS.falsy].
  cbn [withRetry receiveMode pending retryCount output echo].
  repeat split; scan_cases; cbn; try reflexivity; try discriminate.
Qed.

Lemma scanLoop_cons (st : Scan) (d : str) (ps : list str) :
  retryCount st < 3 ->
  scanLoop st (d :: ps) =
  match scanStep st d with
  | Continue st' => scanLoop st' ps
  | Break st' => Returned (Some (output st')) st' ps
  | ReturnNull st' => Returned None st' ps
  end.
Proof.
  intros H. cbn [scanLoop]. apply Nat.ltb_lt in H. now rewrite H.
Qed.

Lemma scanLoop_nil (st : Scan) : retryCount st < 3 -> scanLoop st [] = Waiting st.
Proof. intros H. cbn [scanLoop]. apply Nat.ltb_lt in H. now rewrite H. Qed.

(** Whether polls that all return data leave the call waiting does not depend
    on the retry counter. *)
Lemma scanLoop_data_waiting (ps : list str) (st : Scan) (n : nat) :
  Forall nonEmpty ps -> retryCount st < 3 -> n < 3 ->
  (exists s, scanLoop (withRetry n st) ps = Waiting s) <->
  (exists s, scanLoop st ps = Waiting s).
Proof.
  intros Hps. revert st. induction Hps as [|d ps Hd _ IH]; intros st Hst Hn.
  - rewrite !scanLoop_nil by (cbn; lia). split; intros _; eauto.
  - rewrite !scanLoop_cons by (cbn; lia).
    destruct (scanStep_data st d n Hd) as (E & _ & R). rewrite E.
    destruct (scanStep st d) as [st'|st'|st']; cbn [mapStep stepState] in *.
    + apply IH; lia.
    + split; intros [s H]; discriminate.
    + split; intros [s H]; discriminate.
Qed.

(** After one empty poll, the call returns null exactly at the next empty
    poll, provided the data polled before it completes no response. *)
Lemma scanLoop_null_after_one (polls rest : list str) (st : Scan) :
  retryCount st = 1 ->
  (exists st', scanLoop st polls = Returned None st' rest) <->
  (exists p2, polls = p2 ++ [] :: rest /\ Forall nonEmpty p2 /\
              exists s, scanLoop st p2 = Waiting s).
Proof.
  revert st. induction polls as [|d ps IH]; intros st Hst.
  - rewrite scanLoop_nil by lia. split.
    + intros [st' H]. discriminate.
    + intros (p2 & E & _). destruct p2; discriminate.
  - rewrite scanLoop_cons by lia. destruct d as [|c d].
    + rewrite scanStep_empty, Hst. cbn [Nat.leb]. split.
      * intros [st' H]. injection H as _ ->. exists []. repeat split; [constructor|].
        rewrite scanLoop_nil by lia. eauto.
      * intros (p2 & E & Hp2 & _). destruct p2 as [|x p2].
        -- injection E as ->. eauto.
        -- injection E as <- _. inversion Hp2 as [|? ? Hx]. now elim Hx.
    + assert (Hd : nonEmpty (c :: d)) by discriminate.
      destruct (scanStep_data st (c :: d) 0 Hd) as (_ & Hnull & R).
      destruct (scanStep st (c :: d)) as [st1|st1|st1] eqn:Es; cbn [stepState] in R.
      * rewrite (IH st1) by lia. split.
        -- intros (p2 & -> & Hp2 & Hw). exists ((c :: d) :: p2).
           repeat split; [now constructor|].
           rewrite scanLoop_cons by lia. now rewrite Es.
        -- intros (p2 & E & Hp2 & Hw). destruct p2 as [|x p2]; [discriminate|].
           injection E as <- ->. inversion Hp2; subst.
           rewrite scanLoop_cons in Hw by lia. rewrite Es in Hw. eauto.
      * split.
        -- intros [st' H]. discriminate.
        -- intros (p2 & E & Hp2 & s & Hw). destruct p2 as [|x p2]; [discriminate|].
           injection E as <- ->.
           rewrite scanLoop_cons in Hw by lia. rewrite Es in Hw. discriminate.
      * now elim (Hnull st1).
Qed.

(** From the start of a call, it returns null exactly at the second empty
    poll, provided the data polled before it completes no response. *)
Lemma scanLoop_null_iff (polls rest : list str) (st : Scan) :
  retryCount st = 0 ->
  (exists st', scanLoop st polls = Returned None st' rest) <->
  (exists p1 p2, polls = p1 ++ [] :: p2 ++ [] :: rest /\
                 Forall nonEmpty p1 /\ Forall nonEmpty p2 /\
                 exists s, scanLoop st (p1 ++ p2) = Waiting s).
Proof.
  revert st. induction polls as [|d ps IH]; intros st Hst.
  - rewrite scanLoop_nil by lia. split.
    + intros [st' H]. discriminate.
    + intros (p1 & p2 & E & _). destruct p1; discriminate.
  - rewrite scanLoop_cons by lia. destruct d as [|c d].
    + rewrite scanStep_empty, Hst. cbn [Nat.leb].
      rewrite scanLoop_null_after_one by reflexivity. split.
      * intros (p2 & -> & Hp2 & Hw). exists [], p2. repeat split; [constructor|assumption|].
        cbn [app]. apply (proj1 (scanLoop_data_waiting p2 st 1 Hp2 ltac:(lia) ltac:(lia))).
        exact Hw.
      * intros (p1 & p2 & E & Hp1 & Hp2 & Hw). destruct p1 as [|x p1].
        -- injection E as ->. exists p2. repeat split; [assumption|].
           cbn [app] in Hw.
           apply (proj2 (scanLoop_data_waiting p2 st 1 Hp2 ltac:(lia) ltac:(lia))).
           exact Hw.
        -- injection E as <- _. inversion Hp1 as [|? ? Hx]. now elim Hx.
    + assert (Hd : nonEmpty (c :: d)) by discriminate.
      destruct (scanStep_data st (c :: d) 0 Hd) as (_ & Hnull & R).
      destruct (scanStep st (c :: d)) as [st1|st1|st1] eqn:Es; cbn [stepState] in R.
      * rewrite (IH st1) by lia. split.
        -- intros (p1 & p2 & -> & Hp1 & Hp2 & Hw). exists ((c :: d) :: p1), p2.
           repeat split; [now constructor|assumption|].
           cbn [app]. rewrite scanLoop_cons by lia. now rewrite Es.
        -- intros (p1 & p2 & E & Hp1 & Hp2 & Hw). destruct p1 as [|x p1].
           ++ discriminate.
           ++ injection E as <- ->. inversion Hp1; subst. exists p1, p2.
              repeat split; try assumption.
              cbn [app] in Hw. rewrite scanLoop_cons in Hw by lia. now rewrite Es in Hw.
      * split.
        -- intros [st' H]. discriminate.
        -- intros (p1 & p2 & E & Hp1 & Hp2 & s & Hw). destruct p1 as [|x p1]; [discriminate|].
           injection E as <- ->. cbn [app] in Hw.
           rewrite scanLoop_cons in Hw by lia. rewrite Es in Hw. discriminate.
      * now elim (Hnull st1).
Qed.

(** [readUntilPrompt] on a connected controller, by the result of the scan. *)
Lemma readUntilPrompt_scan (w : World) :
  connected w = true ->
  readUntilPrompt w =
  let cw := createBufferConsumer (lit "readUntilPrompt") w in
  match scanLoop (scanStart (lastLineEcho w)) (polls w) with
  | Returned r st rest =>
      (Ret r, removeBufferConsumer (fst cw)
                (set_polls rest (set_lastLineEcho (echo st) (snd cw))))
  | Waiting st => (Pending, set_polls [] (set_lastLineEcho (echo st) (snd cw)))
  end.
Proof. intros H. unfold readUntilPrompt. rewrite H. reflexivity. Qed.

Lemma readUntilPrompt_null_scan (w : World) (rest : list str) :
  connected w = true ->
  (exists w', readUntilPrompt w = (Ret None, w') /\ polls w' = rest) <->
  (exists st, scanLoop (scanStart (lastLineEcho w)) (polls w) = Returned None st rest).
Proof.
  intros H. rewrite (readUntilPrompt_scan w H). cbv zeta.
  destruct (scanLoop (scanStart (lastLineEcho w)) (polls w)) as [r st rest'|st]; split.
  - intros (w' & E & Hp). injection E as -> <-. cbn in Hp. subst. eauto.
  - intros (st' & E). injection E as -> -> ->. eexists. split; reflexivity.
  - intros (w' & E & _). discriminate.
  - intros (st' & E). discriminate.
Qed.

Lemma readUntilPrompt_pending_scan (w : World) :
  connected w = true ->
  (exists w', readUntilPrompt w = (Pending, w')) <->
  (exists st, scanLoop (scanStart (lastLineEcho w)) (polls w) = Waiting st).
Proof.
  intros H. rewrite (readUntilPrompt_scan w H). cbv zeta.
  destruct (scanLoop (scanStart (lastLineEcho w)) (polls w)) as [r st rest'|st]; split.
  - intros (w' & E). discriminate.
  - intros (st' & E). discriminate.
  - eauto.
  - eauto.
Qed.

(** C3, as the code has it.  On a connected controller [readUntilPrompt]
    returns null, leaving the polls [rest] unread, exactly when the polls
    before [rest] end with the second empty poll of the call, whatever number
    of polls with data separates the two empty polls, and the polls with data
    before it, taken alone, leave the call waiting (they complete no
    response). *)
Theorem readUntilPrompt_null_iff (w : World) (rest : list str) :
  connected w = true ->
  (exists w', readUntilPrompt w = (Ret None, w') /\ polls w' = rest) <->
  (exists p1 p2,
      polls w = p1 ++ [] :: p2 ++ [] :: rest /\
      Forall nonEmpty p1 /\ Forall nonEmpty p2 /\
      exists w', readUntilPrompt (set_polls (p1 ++ p2) w) = (Pending, w')).
Proof.
  intros H. rewrite (readUntilPrompt_null_scan w rest H).
  rewrite scanLoop_null_iff by reflexivity.
  split; intros (p1 & p2 & E & H1 & H2 & Hw); exists p1, p2; repeat split; try assumption.
  - apply readUntilPrompt_pending_scan; [exact H | exact Hw].
  - apply readUntilPrompt_pending_scan in Hw; [exact Hw | exact H].
Qed.

Lemma readUntilPrompt_null_iff_witness :
  exists w', readUntilPrompt (connectedRobot [[]; lit "abc"; []; lit ">>> "] (fun _ => false))
             = (Ret None, w') /\ polls w' = [lit ">>> "].
Proof.
  apply (proj2 (readUntilPrompt_null_iff
                  (connectedRobot [[]; lit "abc"; []; lit ">>> "] (fun _ => false))
                  [lit ">>> "] eq_refl)).
  exists [], [lit "abc"]. repeat split.
  - constructor.
  - repeat constructor. discriminate.
  - eexists. vm_compute. reflexivity.
Defined.

(** C3 as stated fails: an empty poll, a poll with data and another empty
    poll hold no two consecutive empty polls, and the call returns null at
    the third poll all the same. *)
Lemma readUntilPrompt_separated_empty_polls :
  consecutiveEmpty [[]; lit "abc"; []] = false /\
  exists w', readUntilPrompt (connectedRobot [[]; lit "abc"; []; lit ">>> "] (fun _ => false))
             = (Ret None, w') /\ polls w' = [lit ">>> "].
Proof. split; [reflexivity|]. eexists. split; vm_compute; reflexivity. Qed.

(* ------------------------------------------------------------------ *)
(** ** Sequencing *)

Lemma bind_Ret {A B} (m : M A) (f : A -> M B) (w : World) {w' : World} {a : A} :
  m w = (Ret a, w') -> (x <- m ;; f x) w = f a w'.
Proof. intros E. unfold bind. now rewrite E. Qed.

Lemma bind_Throw {A B} (m : M A) (f : A -> M B) (w w' : World) (e : Error) :
  m w = (Throw e, w') -> (x <- m ;; f x) w = (Throw e, w').
Proof. intros E. unfold bind. now rewrite E. Qed.

Lemma bind_Pending {A B} (m : M A) (f : A -> M B) (w w' : World) :
  m w = (Pending, w') -> (x <- m ;; f x) w = (Pending, w').
Proof. intros E. unfold bind. now rewrite E. Qed.

Lemma bind_assoc {A B C} (m : M A) (f : A -> M B) (g : B -> M C) (w : World) :
  (y <- (x <- m ;; f x) ;; g y) w = (x <- m ;; y <- f x ;; g y) w.
Proof. unfold bind. destruct (m w) as [[a|e|] w']; reflexivity. Qed.

(* ------------------------------------------------------------------ *)
(** ** The raw executor: one line of the payload *)

Lemma sendLines_skip (retry : bool) (line : str) (rest : list str) :
  JS.trim line = [] -> sendLines retry (line :: rest) = sendLines retry rest.
Proof. intros E. cbn [sendLines]. now rewrite E. Qed.

Lemma sendLines_send (retry : bool) (line : str) (rest : list str) :
  JS.trim line <> [] ->
  sendLines retry (line :: rest)
  = (sendActualLine retry (actualLineOf line) ;; sendLines retry rest).
Proof.
  intros E. cbn [sendLines]. unfold actualLineOf.
  destruct (JS.trim line); [now elim E | reflexivity].
Qed.

Lemma sendLines_app (retry : bool) (before after : list str) (w w1 : World) :
  sendLines retry before w = (Ret tt, w1) ->
  sendLines retry (before ++ after) w = sendLines retry after w1.
Proof.
  revert w. induction before as [|line before IH]; intros w H.
  - cbn in H. injection H as ->. reflexivity.
  - cbn [app]. destruct (JS.trim line) eqn:Et.
    + rewrite sendLines_skip in * by assumption. now apply IH.
    + assert (Hne : JS.trim line <> []) by (rewrite Et; discriminate).
      rewrite sendLines_send in * by assumption.
      unfold bind in *. destruct (sendActualLine retry (actualLineOf line) w) as [[[]|e|] w'].
      * now apply IH.
      * discriminate.
      * discriminate.
Qed.

Lemma accepted_Some (r : option str) :
  accepted r = true -> exists s, r = Some s /\ JS.includes s (lit "Traceback") = false.
Proof.
  destruct r as [s|]; cbn; [|discriminate].
  intros H. exists s. split; [reflexivity|]. now apply negb_true_iff.
Qed.

Lemma retryLoop_step (n : nat) (line : str) (w w1 : World) (r : option str) :
  sendLine line w = (Ret r, w1) ->
  retryLoop (S n) line w = if accepted r then (Ret true, w1) else retryLoop n line w1.
Proof.
  intros E. cbn [retryLoop]. rewrite (bind_Ret _ _ _ E).
  destruct r as [s|]; cbn [accepted]; [|reflexivity].
  destruct (JS.includes s (lit "Traceback")); reflexivity.
Qed.

Lemma sendActualLine_once (retry : bool) (line : str) (w w1 : World) (r : option str) :
  retry = false \/ JS.startsWith line (lit "exec(") = true ->
  sendLine line w = (Ret r, w1) ->
  sendActualLine retry line w
  = (match r with None => Throw SendLineFailed | Some _ => Ret tt end, w1).
Proof.
  intros Hc E. unfold sendActualLine.
  replace (negb retry || JS.startsWith line (lit "exec(")) with true
    by (destruct Hc as [-> | ->]; [reflexivity | now rewrite orb_true_r]).
  rewrite (bind_Ret _ _ _ E). now destruct r.
Qed.

Lemma sendActualLine_retry (line : str) (w : World) :
  JS.startsWith line (lit "exec(") = false ->
  sendActualLine true line w
  = (success <- retryLoop 3 line ;;
     if negb success then throw RetriesFailed else ret tt) w.
Proof. intros E. unfold sendActualLine. now rewrite E. Qed.

Lemma executeCodeRaw_at_line (code : str) (retry : bool) (w w0 w1 : World)
      (before : list str) (line : str) (rest : list str) :
  connected w = true ->
  interrupt w = (Ret tt, w0) ->
  JS.split 10 (JS.replaceCR code) = before ++ line :: rest ->
  sendLines retry before w0 = (Ret tt, w1) ->
  executeCodeRaw code retry w = sendLines retry (line :: rest) w1.
Proof.
  intros Hc Hi Hs Hb. unfold executeCodeRaw. rewrite Hc. cbn [negb].
  rewrite (bind_Ret _ _ _ Hi). cbv zeta. rewrite Hs.
  now apply sendLines_app.
Qed.

(** C5.  At the payload line [line] that the loop of [executeCodeRaw] reaches
    in the world [w1] and does not skip, with [actualLine] the line handed to
    the sender: when retry is disabled or [actualLine] begins with [exec(],
    the line is sent once, and the call throws if the response is null and
    goes on to the next line otherwise; when retry is enabled and
    [actualLine] does not begin with [exec(], the first accepted attempt
    among at most three ends the attempts and the call goes on to the next
    line, and the call throws after a third attempt that is not accepted. *)
Theorem executeCodeRaw_line_policy (code : str) (retry : bool) (w w0 w1 : World)
        (before : list str) (line : str) (rest : list str) :
  connected w = true ->
  interrupt w = (Ret tt, w0) ->
  JS.split 10 (JS.replaceCR code) = before ++ line :: rest ->
  sendLines retry before w0 = (Ret tt, w1) ->
  JS.trim line <> [] ->
  let actualLine := actualLineOf line in
  (retry = false \/ JS.startsWith actualLine (lit "exec(") = true ->
   forall r w2, sendLine actualLine w1 = (Ret r, w2) ->
     executeCodeRaw code retry w
     = match r with
       | None => (Throw SendLineFailed, w2)
       | Some _ => sendLines retry rest w2
       end)
  /\
  (retry = true /\ JS.startsWith actualLine (lit "exec(") = false ->
   forall r1 w2, sendLine actualLine w1 = (Ret r1, w2) ->
     if accepted r1 then executeCodeRaw code retry w = sendLines retry rest w2
     else
       forall r2 w3, sendLine actualLine w2 = (Ret r2, w3) ->
         if accepted r2 then executeCodeRaw code retry w = sendLines retry rest w3
         else
           forall r3 w4, sendLine actualLine w3 = (Ret r3, w4) ->
             executeCodeRaw code retry w
             = if accepted r3 then sendLines retry rest w4
               else (Throw RetriesFailed, w4)).
Proof.
  intros Hc Hi Hs Hb Hne actualLine.
  rewrite (executeCodeRaw_at_line code retry w w0 w1 before line rest Hc Hi Hs Hb).
  rewrite (sendLines_send retry line rest Hne). fold actualLine.
  split.
  - intros Hcase r w2 E. unfold bind at 1.
    rewrite (sendActualLine_once retry actualLine w1 w2 r Hcase E). now destruct r.
  - intros [-> Hexec] r1 w2 E1.
    assert (HL : (sendActualLine true actualLine ;; sendLines true rest) w1
                 = match retryLoop 3 actualLine w1 with
                   | (Ret true, w') => sendLines true rest w'
                   | (Ret false, w') => (Throw RetriesFailed, w')
                   | (Throw e, w') => (Throw e, w')
                   | (Pending, w') => (Pending, w')
                   end).
    { unfold bind at 1. rewrite (sendActualLine_retry actualLine w1 Hexec). unfold bind.
      destruct (retryLoop 3 actualLine w1) as [[[|]|e|] w']; reflexivity. }
    rewrite HL. clear HL.
    rewrite (retryLoop_step 2 actualLine w1 w2 r1 E1).
    destruct (accepted r1); [reflexivity|].
    intros r2 w3 E2. rewrite (retryLoop_step 1 actualLine w2 w3 r2 E2).
    destruct (accepted r2); [reflexivity|].
    intros r3 w4 E3. rewrite (retryLoop_step 0 actualLine w3 w4 r3 E3).
    destruct (accepted r3); reflexivity.
Qed.

Lemma executeCodeRaw_line_policy_witness :
  let w := connectedRobot retryPolls (fun _ => false) in
  fst (executeCodeRaw (lit "x = 1") true w) = Ret tt /\
  trace (snd (executeCodeRaw (lit "x = 1") true w))
  = [ EvWrite [3%N]; EvWrite [3%N];
      EvWrite (JS.encode (lit "x = 1" ++ crlf));
      EvWrite (JS.encode (lit "x = 1" ++ crlf)) ].
Proof.
  cbv zeta.
  set (w := connectedRobot retryPolls (fun _ => false)).
  set (w0 := snd (interrupt w)).
  set (r1 := Some (lit "Traceback (most recent call last):" ++ crlf)).
  set (w2 := snd (sendLine (lit "x = 1") w0)).
  set (r2 := Some ([] : str)).
  set (w3 := snd (sendLine (lit "x = 1") w2)).
  assert (Hi : interrupt w = (Ret tt, w0)) by (vm_compute; reflexivity).
  assert (Hs : JS.split 10 (JS.replaceCR (lit "x = 1")) = [] ++ lit "x = 1" :: [])
    by (vm_compute; reflexivity).
  assert (Hb : sendLines true [] w0 = (Ret tt, w0)) by reflexivity.
  assert (Hne : JS.trim (lit "x = 1") <> []) by (vm_compute; discriminate).
  assert (Hx : JS.startsWith (actualLineOf (lit "x = 1")) (lit "exec(") = false)
    by (vm_compute; reflexivity).
  assert (E1 : sendLine (actualLineOf (lit "x = 1")) w0 = (Ret r1, w2))
    by (vm_compute; reflexivity).
  assert (E2 : sendLine (actualLineOf (lit "x = 1")) w2 = (Ret r2, w3))
    by (vm_compute; reflexivity).
  pose proof (proj2 (executeCodeRaw_line_policy (lit "x = 1") true w w0 w0 [] (lit "x = 1") []
                       eq_refl Hi Hs Hb Hne) (conj eq_refl Hx) r1 w2 E1) as P.
  assert (A1 : accepted r1 = false) by (vm_compute; reflexivity).
  rewrite A1 in P. specialize (P r2 w3 E2).
  assert (A2 : accepted r2 = true) by (vm_compute; reflexivity).
  rewrite A2 in P. rewrite P. split; vm_compute; reflexivity.
Defined.

(* ------------------------------------------------------------------ *)
(** ** Trimming and splitting into lines *)


Lemma trimStart_head (s : str) (c : N) (t : str) :
  JS.trimStart s = c :: t -> JS.isWhiteSpace c = false.
Proof.
  induction s as [|d s IH]; cbn [JS.trimStart]; [discriminate|].
  destruct (JS.isWhiteSpace d) eqn:Ed; [exact IH|].
  intros E. injection E as <- _. exact Ed.
Qed.

Lemma trimStart_nil_iff (s : str) :
  JS.trimStart s = [] <-> forallb JS.isWhiteSpace s = true.
Proof.
  induction s as [|c s IH]; cbn; [tauto|].
  destruct (JS.isWhiteSpace c); cbn; [exact IH|]. split; discriminate.
Qed.

Lemma trim_nil_iff (s : str) : JS.trim s = [] <-> isBlank s = true.
Proof.
  unfold JS.trim, JS.trimEnd, isBlank. rewrite <- trimStart_nil_iff.
  split.
  - intros H. apply (f_equal (@rev N)) in H. rewrite rev_involutive in H. cbn in H.
    destruct (JS.trimStart s) as [|c t] eqn:E; [reflexivity|].
    apply trimStart_nil_iff in H. rewrite forallb_forall in H.
    pose proof (trimStart_head s c t E) as Hc.
    rewrite (H c) in Hc; [discriminate|]. apply in_rev. rewrite rev_involutive. now left.
  - intros ->. reflexivity.
Qed.


Lemma split_replaceCR (code : str) : JS.split 10 (JS.replaceCR code) = linesOf code.
Proof.
  induction code as [|c t IH]; [reflexivity|].
  cbn [JS.replaceCR map JS.split linesOf]. fold (JS.replaceCR t). rewrite IH.
  destruct (N.eqb_spec c 13) as [->|H13]; [reflexivity|].
  cbn [orb]. destruct (N.eqb_spec c 10); reflexivity.
Qed.

Lemma linesOf_no_terminator (code : str) :
  Forall (fun line => ~ In 13%N line /\ ~ In 10%N line) (linesOf code).
Proof.
  induction code as [|c t IH]; cbn [linesOf].
  - repeat constructor; intros [].
  - destruct (N.eqb_spec c 13) as [->|H13]; cbn [orb].
    + constructor; [split; intros []|exact IH].
    + destruct (N.eqb_spec c 10) as [->|H10].
      * constructor; [split; intros []|exact IH].
      * destruct (linesOf t) as [|l ls]; [repeat constructor; intros [|[]]; congruence|].
        inversion IH as [|? ? [Hl1 Hl2] Hls]; subst.
        constructor; [|exact Hls]. split; intros [|]; congruence.
Qed.

Lemma bind_ext {A B} (m : M A) (f g : A -> M B) (w : World) :
  (forall a w', f a w' = g a w') -> (x <- m ;; f x) w = (x <- m ;; g x) w.
Proof. intros E. unfold bind. destruct (m w) as [[a| |] w']; [apply E|reflexivity..]. Qed.

Lemma sendLines_forEach (retry : bool) (lines : list str) (w : World) :
  sendLines retry lines w = forEach (flat_map lineToSend lines) (sendActualLine retry) w.
Proof.
  revert w. induction lines as [|line rest IH]; intros w; [reflexivity|].
  cbn [flat_map]. unfold lineToSend at 1.
  destruct (isBlank line) eqn:Eb.
  - apply trim_nil_iff in Eb. rewrite (sendLines_skip retry line rest Eb). apply IH.
  - assert (Hne : JS.trim line <> []).
    { intros H. apply trim_nil_iff in H. congruence. }
    rewrite (sendLines_send retry line rest Hne). unfold actualLineOf.
    destruct (JS.eqb (JS.trim line) (lit "_EMPTY_")); cbn [app forEach];
      apply bind_ext; intros; apply IH.
Qed.

Lemma executeCodeRaw_forEach (code : str) (retry : bool) (w : World) :
  connected w = true ->
  executeCodeRaw code retry w
  = (interrupt ;; forEach (flat_map lineToSend (linesOf code)) (sendActualLine retry)) w.
Proof.
  intros Hc. unfold executeCodeRaw. rewrite Hc. cbn [negb]. cbv zeta.
  apply bind_ext. intros _ w'. rewrite split_replaceCR. apply sendLines_forEach.
Qed.

(* ------------------------------------------------------------------ *)
(** ** What the raw executor writes *)

Lemma readUntilPrompt_trace (w : World) :
  trace (snd (readUntilPrompt w)) = trace w.
Proof.
  unfold readUntilPrompt. destruct (connected w); [|reflexivity]. cbn.
  destruct (scanLoop _ _); reflexivity.
Qed.

Lemma sendLine_trace (l : str) (w : World) :
  exists k, k <= 1 /\ trace (snd (sendLine l w)) = trace w ++ repeat (lineWrite l) k.
Proof.
  unfold sendLine.
  destruct (negb (connected w) || negb (writer w)) eqn:E.
  - exists 0. split; [lia|]. cbn. now rewrite app_nil_r.
  - apply orb_false_iff in E as [_ Hw]. apply negb_false_iff in Hw.
    exists 1. split; [lia|]. unfold bind, writer_write. rewrite Hw.
    pose proof (readUntilPrompt_trace (emit (EvWrite (JS.encode (l ++ crlf))) w)) as T.
    destruct (readUntilPrompt _) as [[r|e|] w']; cbn in *; exact T.
Qed.

Lemma repeat_plus {A} (x : A) (a b : nat) : repeat x (a + b) = repeat x a ++ repeat x b.
Proof. apply repeat_app. Qed.

Lemma retryLoop_trace (n : nat) (l : str) (w : World) :
  exists k, k <= n /\ trace (snd (retryLoop n l w)) = trace w ++ repeat (lineWrite l) k.
Proof.
  revert w. induction n as [|n IH]; intros w.
  - exists 0. split; [lia|]. cbn. now rewrite app_nil_r.
  - cbn [retryLoop]. unfold bind.
    destruct (sendLine_trace l w) as (k1 & Hk1 & T1).
    destruct (sendLine l w) as [[r|e|] w1]; cbn [snd] in *.
    + assert (Hgo : exists k, k <= S n /\
                  trace (snd (retryLoop n l w1)) = trace w ++ repeat (lineWrite l) k).
      { destruct (IH w1) as (k2 & Hk2 & T2). exists (k1 + k2). split; [lia|].
        now rewrite T2, T1, repeat_plus, app_assoc. }
      destruct r as [s|]; [|exact Hgo].
      destruct (negb (JS.includes s (lit "Traceback"))); [|exact Hgo].
      exists k1. split; [lia | exact T1].
    + exists k1. split; [lia | exact T1].
    + exists k1. split; [lia | exact T1].
Qed.

Lemma sendActualLine_trace (retry : bool) (l : str) (w : World) :
  exists k, k <= 3 /\
    trace (snd (sendActualLine retry l w)) = trace w ++ repeat (lineWrite l) k.
Proof.
  unfold sendActualLine.
  destruct (negb retry || JS.startsWith l (lit "exec(")).
  - destruct (sendLine_trace l w) as (k & Hk & T). exists k. split; [lia|].
    unfold bind. destruct (sendLine l w) as [[[s|]|e|] w1]; exact T.
  - destruct (retryLoop_trace 3 l w) as (k & Hk & T). exists k. split; [lia|].
    unfold bind. destruct (retryLoop 3 l w) as [[[|]|e|] w1]; exact T.
Qed.

Lemma interrupt_trace (w : World) :
  exists n, n <= 2 /\
    trace (snd (interrupt w)) = trace w ++ repeat (EvWrite (JS.encode ctrlC)) n.
Proof.
  unfold interrupt, bind, writer_write. destruct (writer w) eqn:Hw.
  - exists 2. split; [lia|]. cbn [writer emit set_trace trace]. rewrite Hw.
    pose proof (readUntilPrompt_trace
                  (emit (EvWrite (JS.encode ctrlC)) (emit (EvWrite (JS.encode ctrlC)) w))) as T.
    destruct (readUntilPrompt _) as [[[s|]|e|] w1]; cbn in *; rewrite T, <- app_assoc;
      reflexivity.
  - exists 0. split; [lia|]. cbn. now rewrite app_nil_r.
Qed.
















(* ------------------------------------------------------------------ *)
(** ** Download: the probe and the markers *)

Lemma startsWith_app (s p : str) : JS.startsWith s p = true -> exists t, s = p ++ t.
Proof.
  revert s. induction p as [|c p IH]; intros s H; [now exists s|].
  destruct s as [|d s]; [discriminate|]. cbn in H.
  apply andb_true_iff in H as [Hc Hp]. apply N.eqb_eq in Hc. subst.
  destruct (IH s Hp) as [t ->]. now exists t.
Qed.

(** [indexOf] finds an occurrence, at the position it returns. *)
Lemma indexOf_Some (s p : str) (i : nat) :
  JS.indexOf s p = Some i -> exists pre post, s = pre ++ p ++ post /\ length pre = i.
Proof.
  revert i. induction s as [|c s IH]; intros i; cbn [JS.indexOf].
  - destruct (JS.startsWith [] p) eqn:E; [|discriminate].
    intros [= <-]. destruct (startsWith_app _ _ E) as [t ->]. now exists [], t.
  - destruct (JS.startsWith (c :: s) p) eqn:E.
    + intros [= <-]. destruct (startsWith_app _ _ E) as [t ->]. now exists [], t.
    + destruct (JS.indexOf s p) as [j|]; [|discriminate].
      intros [= <-]. destruct (IH j eq_refl) as (pre & post & -> & <-).
      now exists (c :: pre), post.
Qed.

Lemma includes_indexOf (s p : str) :
  JS.includes s p = false <-> JS.indexOf s p = None.
Proof. unfold JS.includes. destruct (JS.indexOf s p); split; congruence. Qed.

(** With bounds in order and inside the string, [substring] is a plain
    slice. *)
Lemma substring_slice (s : str) (a b : nat) :
  a <= b -> b <= length s -> JS.substring s a b = firstn (b - a) (skipn a s).
Proof.
  intros Hab Hb. unfold JS.substring.
  replace (Nat.min a (length s)) with a by lia.
  replace (Nat.min b (length s)) with b by lia.
  replace (Nat.max a b) with b by lia. replace (Nat.min a b) with a by lia.
  reflexivity.
Qed.

(** The text between the first start marker and the first end marker, when
    the end marker begins at or after the end of the start marker. *)
Lemma skipn_length_app {A} (a b : list A) : skipn (length a) (a ++ b) = b.
Proof. induction a as [|x a IH]; [reflexivity | exact IH]. Qed.

Lemma substring_between_markers (result : str) (si ei : nat) :
  JS.indexOf result startMarker = Some si ->
  JS.indexOf result endMarker = Some ei ->
  si + length startMarker <= ei ->
  exists pre content post,
    result = pre ++ startMarker ++ content ++ endMarker ++ post /\
    length pre = si /\
    length (pre ++ startMarker ++ content) = ei /\
    JS.substring result (si + length startMarker) ei = content.
Proof.
  intros Hs He Hle.
  destruct (indexOf_Some _ _ _ Hs) as (pre & post1 & E1 & L1).
  destruct (indexOf_Some _ _ _ He) as (pre2 & post & E2 & L2).
  set (k := ei - (si + length startMarker)).
  exists pre, (firstn k post1), post.
  assert (Hlen : ei <= length result) by (rewrite E2, length_app; lia).
  assert (Hsk : skipn (si + length startMarker) result = post1).
  { rewrite E1, app_assoc, <- L1, <- length_app. apply skipn_length_app. }
  (* the end marker and what follows it are what [post1] holds from [k] on *)
  assert (Hpost : skipn k post1 = endMarker ++ post).
  { rewrite <- Hsk, skipn_skipn.
    replace (k + (si + length startMarker)) with (length pre2) by (unfold k; lia).
    rewrite E2. apply skipn_length_app. }
  assert (Hk : k < length post1).
  { apply (f_equal (@length N)) in Hpost. rewrite length_skipn, length_app in Hpost.
    change (length endMarker) with 14 in Hpost. lia. }
  repeat split.
  - rewrite E1 at 1. do 2 f_equal.
    rewrite <- Hpost. symmetry. apply firstn_skipn.
  - exact L1.
  - rewrite !length_app, length_firstn. unfold k in *. lia.
  - rewrite substring_slice by lia. fold k. now rewrite Hsk.
Qed.

(** C10.  When the response to the empty line that closes the probe is null,
    [downloadCode] fails on the call of [includes] on null: with a type error,
    not with the file-not-found error and not with the not-responding
    error. *)
Theorem downloadCode_null_probe (filename : str) (w w0 w1 w2 w3 : World)
        (r1 r2 : option str) :
  connected w = true ->
  interrupt w = (Ret tt, w0) ->
  sendLine (probeTry filename) w0 = (Ret r1, w1) ->
  sendLine probeExcept w1 = (Ret r2, w2) ->
  sendLine [] w2 = (Ret None, w3) ->
  downloadCode filename w = (Throw TypeError, w3).
Proof.
  intros Hc Hi E1 E2 E3. unfold downloadCode. rewrite Hc. cbn [negb].
  now rewrite (bind_Ret _ _ _ Hi), (bind_Ret _ _ _ E1), (bind_Ret _ _ _ E2),
    (bind_Ret _ _ _ E3).
Qed.

(** C7.  A file whose content holds the text of the end marker is not
    returned as it is.  The device holds a file whose content is
    [FILE_END===x] and prints it between the markers.  Both markers are in
    the response; the end marker is searched from the start of the response
    and is found at index 13, inside the start marker and the content; the
    start index 16 being above it, [substring] exchanges the two, and the
    call returns [===] where the text between the markers, the content of
    the file, is [FILE_END===x]. *)
Theorem downloadCode_overlapping_markers :
  let printed := lit "FILE_END===x" in
  let result := startMarker ++ printed ++ endMarker ++ crlf in
  let w := connectedRobot (downloadPolls (lit "main.py") printed) (fun _ => false) in
  JS.indexOf result startMarker = Some 0 /\
  JS.indexOf result endMarker = Some 13 /\
  fst (downloadCode (lit "main.py") w) = Ret (lit "===") /\
  lit "===" <> JS.replaceCRLF printed.
Proof. cbv zeta. repeat split; vm_compute; try reflexivity; discriminate. Qed.

Lemma downloadCode_null_probe_witness :
  fst (downloadCode (lit "main.py")
         (connectedRobot (silentProbePolls (lit "main.py")) (fun _ => false)))
  = Throw TypeError.
Proof.
  set (filename := lit "main.py").
  set (w := connectedRobot (silentProbePolls filename) (fun _ => false)).
  set (w0 := snd (interrupt w)).
  set (w1 := snd (sendLine (probeTry filename) w0)).
  set (w2 := snd (sendLine probeExcept w1)).
  set (w3 := snd (sendLine [] w2)).
  assert (Hi : interrupt w = (Ret tt, w0)) by (vm_compute; reflexivity).
  assert (E1 : sendLine (probeTry filename) w0 = (Ret (Some []), w1))
    by (vm_compute; reflexivity).
  assert (E2 : sendLine probeExcept w1 = (Ret (Some []), w2)) by (vm_compute; reflexivity).
  assert (E3 : sendLine [] w2 = (Ret None, w3)) by (vm_compute; reflexivity).
  now rewrite (downloadCode_null_probe filename w _ _ _ _ _ _ eq_refl Hi E1 E2 E3).
Defined.

(* ------------------------------------------------------------------ *)
(** ** Teardown: the order of the steps *)

Lemma transportOp_ok (op : TransportOp) (w : World) :
  faulty w op = false -> transportOp op w = (Ret tt, emit (EvOp op) w).
Proof. intros H. unfold transportOp. cbn. now rewrite H. Qed.

Lemma stopBackgroundReading_result (w : World) :
  exists w1,
    stopBackgroundReading w = (Ret tt, w1) /\
    trace w1 = trace w ++ [EvStopBackgroundReading] /\
    reader w1 = reader w /\ writer w1 = writer w /\ port w1 = port w /\
    faulty w1 = faulty w.
Proof.
  unfold stopBackgroundReading. eexists. split; [reflexivity|].
  destruct w as [p r wr c e b a [] cs lp no ps f t]; repeat split.
Qed.

(** With the three handles held and no operation rejecting, what follows
    the first step returns after performing every step. *)
Lemma disconnect_rest_complete (w : World) :
  reader w = true -> writer w = true -> port w = true ->
  (forall op, faulty w op = false) ->
  fst (disconnect_rest w) = Ret tt /\
  trace (snd (disconnect_rest w)) = trace w ++ tl teardownOrder.
Proof.
  intros Hr Hw Hp Hf. unfold disconnect_rest, bind, update.
  rewrite Hr. cbn [when]. unfold bind, update.
  rewrite (transportOp_ok ReaderCancel w (Hf _)).
  rewrite transportOp_ok by apply Hf.
  cbn [writer set_reader emit set_trace]. rewrite Hw. cbn [when]. unfold bind, update.
  rewrite transportOp_ok by apply Hf.
  cbn [port set_reader set_writer emit set_trace]. rewrite Hp. cbn [when]. unfold bind, update.
  rewrite transportOp_ok by apply Hf.
  split; [reflexivity|].
  cbn [snd trace emit set_trace set_port set_writer set_reader set_connected
       set_serialBuffer set_lastBufferPosition set_bufferConsumers].
  now rewrite <- !app_assoc.
Qed.

(** With the three handles held and no operation rejecting, [disconnect]
    returns after performing every step. *)
Lemma disconnect_complete (w : World) :
  reader w = true -> writer w = true -> port w = true ->
  (forall op, faulty w op = false) ->
  fst (disconnect w) = Ret tt /\ trace (snd (disconnect w)) = trace w ++ teardownOrder.
Proof.
  intros Hr Hw Hp Hf.
  destruct (stopBackgroundReading_result w) as (w1 & Hs & T1 & R1 & W1 & P1 & F1).
  unfold disconnect. fold disconnect_rest. rewrite (bind_Ret _ _ _ Hs).
  assert (Hf1 : forall op, faulty w1 op = false) by (intros op; rewrite F1; apply Hf).
  destruct (disconnect_rest_complete w1 ltac:(congruence) ltac:(congruence)
              ltac:(congruence) Hf1) as [Hret Ht].
  split; [exact Hret|]. rewrite Ht, T1, <- app_assoc. reflexivity.
Qed.

Lemma untilRejection_app (f : TransportOp -> bool) (p1 p2 : list Event) :
  untilRejection f (p1 ++ p2)
  = match snd (untilRejection f p1) with
    | Some op => untilRejection f p1
    | None => (fst (untilRejection f p1) ++ fst (untilRejection f p2),
               snd (untilRejection f p2))
    end.
Proof.
  induction p1 as [|e p1 IH].
  - cbn. now destruct (untilRejection f p2).
  - cbn [app untilRejection]. rewrite IH.
    destruct (untilRejection f p1) as [evs1 [op1|]]; cbn [fst snd];
      destruct (untilRejection f p2) as [evs2 r2]; cbn [fst snd];
      destruct e as [bs|op| | |]; try reflexivity; destruct (f op); reflexivity.
Qed.

(** Two computations in sequence perform the plan of the first, then, if the
    first returned, the plan of the second. *)
Lemma performs_bind (m k : M unit) (p1 p2 : list Event) (w : World) :
  performs m p1 w ->
  (fst (m w) = Ret tt -> performs k p2 (snd (m w))) ->
  performs (m ;; k) (p1 ++ p2) w.
Proof.
  intros (T1 & O1 & F1) Hk. unfold performs. rewrite untilRejection_app. unfold bind.
  destruct (m w) as [[[]|e|] w1]; cbn [fst snd] in *.
  - destruct (Hk eq_refl) as (T2 & O2 & F2). rewrite F1 in *.
    destruct (untilRejection (faulty w) p1) as [evs1 [op|]]; cbn [fst snd endOf] in *;
      [discriminate|].
    rewrite T2, T1, O2, F2, app_assoc. repeat split.
  - destruct (untilRejection (faulty w) p1) as [evs1 [op|]]; cbn [fst snd endOf] in *;
      [|discriminate].
    repeat split; assumption.
  - destruct (untilRejection (faulty w) p1) as [evs1 [op|]]; cbn [fst snd endOf] in *;
      discriminate.
Qed.

Lemma performs_transportOp (op : TransportOp) (w : World) :
  performs (transportOp op) [EvOp op] w.
Proof.
  unfold performs, transportOp.
  change (faulty (emit (EvOp op) w) op) with (faulty w op).
  cbn [untilRejection]. destruct (faulty w op); repeat split.
Qed.

Lemma performs_event (g : World -> World) (e : Event) (w : World) :
  (forall op, e <> EvOp op) ->
  trace (g w) = trace w ++ [e] -> faulty (g w) = faulty w ->
  performs (update g) [e] w.
Proof.
  intros He T F. unfold performs, update. cbn [fst snd untilRejection].
  destruct e; try (repeat split; assumption). now elim (He op).
Qed.

Lemma performs_silent (g : World -> World) (w : World) :
  trace (g w) = trace w -> faulty (g w) = faulty w -> performs (update g) [] w.
Proof.
  intros T F. unfold performs, update. cbn [fst snd untilRejection].
  rewrite app_nil_r. repeat split; assumption.
Qed.

Lemma performs_skip (w : World) : performs (ret tt) [] w.
Proof. unfold performs, ret. cbn. rewrite app_nil_r. repeat split. Qed.

Lemma performs_here (g : World -> M unit) (plan : list Event) (w : World) :
  performs (g w) plan w -> performs (fun w' => g w' w') plan w.
Proof. exact (fun H => H). Qed.

Lemma stopBackgroundReading_handles (w : World) :
  reader (snd (stopBackgroundReading w)) = reader w /\
  writer (snd (stopBackgroundReading w)) = writer w /\
  port (snd (stopBackgroundReading w)) = port w.
Proof.
  unfold stopBackgroundReading.
  destruct (backgroundReadPromise (set_backgroundReadActive false w)); repeat split.
Qed.

(** The plan, block by block as the source has it. *)
Lemma teardownPlan_blocks (w : World) :
  teardownPlan w
  = [EvStopBackgroundReading]
    ++ (if reader w then [EvOp ReaderCancel; EvOp ReaderReleaseLock] else [])
    ++ (if writer w then [EvOp WriterClose] else [])
    ++ (if port w then [EvOp PortClose] else [])
    ++ [EvClearBuffer; EvClearConsumers].
Proof.
  unfold teardownPlan, teardownOrder. cbn [filter held].
  destruct (reader w), (writer w), (port w); reflexivity.
Qed.

(** C4, as the code has it.  Whatever handles are held and whichever of
    their operations reject, [disconnect] performs exactly the steps of its
    plan up to the first rejection: in the order stop the background reader,
    release read access (cancel the reader, release its lock), release write
    access (close the writer), close the port, clear the buffer and the
    consumers, with the operations on a handle that is not held left out;
    the first operation that rejects is the last step performed and the call
    rethrows its error, and the call returns when none rejects. *)
Theorem disconnect_order (w : World) :
  trace (snd (disconnect w)) = trace w ++ fst (untilRejection (faulty w) (teardownPlan w)) /\
  fst (disconnect w) = endOf (snd (untilRejection (faulty w) (teardownPlan w))).
Proof.
  cut (performs disconnect (teardownPlan w) w).
  { intros (T & O & _). split; assumption. }
  rewrite teardownPlan_blocks. unfold disconnect.
  (* the background reader is stopped *)
  apply performs_bind.
  { unfold performs, stopBackgroundReading. cbn [fst snd untilRejection].
    destruct (backgroundReadPromise (set_backgroundReadActive false w)); repeat split. }
  intros _.
  destruct (stopBackgroundReading_handles w) as (R1 & W1 & P1).
  generalize dependent (snd (stopBackgroundReading w)). intros w1 R1 W1 P1.
  rewrite <- R1, <- W1, <- P1. clear R1 W1 P1 w.
  (* read access *)
  apply performs_bind.
  { refine (performs_here (fun w0 => when (reader w0) _) _ _ _).
    destruct (reader w1); [|apply performs_skip].
    unfold when.
    apply (performs_bind _ _ [EvOp ReaderCancel] [EvOp ReaderReleaseLock]);
      [apply performs_transportOp|]. intros _.
    apply (performs_bind _ _ [EvOp ReaderReleaseLock] []);
      [apply performs_transportOp|]. intros _.
    apply performs_silent; reflexivity. }
  intros _.
  match goal with |- performs _ _ (snd (?m w1)) => set (m1 := m) end.
  assert (F1 : writer (snd (m1 w1)) = writer w1 /\ port (snd (m1 w1)) = port w1).
  { unfold m1, when. destruct (reader w1); [|split; reflexivity].
    unfold bind, transportOp, update.
    change (faulty (emit (EvOp ReaderCancel) w1) ReaderCancel) with (faulty w1 ReaderCancel).
    destruct (faulty w1 ReaderCancel); [split; reflexivity|].
    change (faulty (emit (EvOp ReaderReleaseLock) (emit (EvOp ReaderCancel) w1))
              ReaderReleaseLock)
      with (faulty w1 ReaderReleaseLock).
    destruct (faulty w1 ReaderReleaseLock); split; reflexivity. }
  destruct F1 as (W2 & P2).
  generalize dependent (snd (m1 w1)). intros w2 W2 P2.
  rewrite <- W2, <- P2. clear W2 P2 m1 w1.
  (* write access *)
  apply performs_bind.
  { refine (performs_here (fun w0 => when (writer w0) _) _ _ _).
    destruct (writer w2); [|apply performs_skip].
    unfold when.
    apply (performs_bind _ _ [EvOp WriterClose] []); [apply performs_transportOp|].
    intros _. apply performs_silent; reflexivity. }
  intros _.
  match goal with |- performs _ _ (snd (?m w2)) => set (m2 := m) end.
  assert (P3 : port (snd (m2 w2)) = port w2).
  { unfold m2, when. destruct (writer w2); [|reflexivity].
    unfold bind, transportOp, update.
    change (faulty (emit (EvOp WriterClose) w2) WriterClose) with (faulty w2 WriterClose).
    destruct (faulty w2 WriterClose); reflexivity. }
  generalize dependent (snd (m2 w2)). intros w3 P3.
  rewrite <- P3. clear P3 m2 w2.
  (* the port *)
  apply performs_bind.
  { refine (performs_here (fun w0 => when (port w0) _) _ _ _).
    destruct (port w3); [|apply performs_skip].
    unfold when.
    apply (performs_bind _ _ [EvOp PortClose] []); [apply performs_transportOp|].
    intros _. apply performs_silent; reflexivity. }
  intros _.
  match goal with |- performs _ _ (snd (?m w3)) => generalize (snd (m w3)) end.
  clear w3. intros w4.
  (* the state is cleared *)
  apply (performs_bind _ _ [] [EvClearBuffer; EvClearConsumers]);
    [apply performs_silent; reflexivity|]. intros _.
  apply (performs_bind _ _ [EvClearBuffer] [EvClearConsumers]);
    [apply performs_event; [discriminate | reflexivity | reflexivity]|]. intros _.
  apply (performs_bind _ _ [] [EvClearConsumers]);
    [apply performs_silent; reflexivity|]. intros _.
  apply performs_event; [discriminate | reflexivity | reflexivity].
Qed.

(** Three teardowns: with every handle held and nothing rejecting, all seven
    steps are performed and the call returns; with the writer not held and a
    port that refuses to close, the close of the writer is left out, the
    close of the port is the last step and its error is rethrown, the state
    not being cleared; with no handle held, only the stop of the background
    reader and the clearing are performed. *)
Lemma disconnect_order_witness :
  (trace (snd (disconnect (connectedRobot [] (fun _ => false)))) = teardownOrder /\
   fst (disconnect (connectedRobot [] (fun _ => false))) = Ret tt) /\
  (trace (snd (disconnect (set_writer false (connectedRobot [] stuckPort))))
   = [EvStopBackgroundReading; EvOp ReaderCancel; EvOp ReaderReleaseLock; EvOp PortClose] /\
   fst (disconnect (set_writer false (connectedRobot [] stuckPort)))
   = Throw (TransportError PortClose)) /\
  (trace (snd (disconnect (newRobotController [] (fun _ => false))))
   = [EvStopBackgroundReading; EvClearBuffer; EvClearConsumers] /\
   fst (disconnect (newRobotController [] (fun _ => false))) = Ret tt).
Proof.
  split; [exact (disconnect_order (connectedRobot [] (fun _ => false)))|].
  split; [exact (disconnect_order (set_writer false (connectedRobot [] stuckPort)))|].
  exact (disconnect_order (newRobotController [] (fun _ => false))).
Defined.

(** C4 as stated fails: on a connected controller none of whose operations
    rejects, the reader is cancelled and its lock released before the writer
    is closed, so the steps are not in the order that releases write access
    first. *)
Lemma disconnect_releases_reader_first :
  trace (snd (disconnect (connectedRobot [] (fun _ => false))))
  = [ EvStopBackgroundReading; EvOp ReaderCancel; EvOp ReaderReleaseLock;
      EvOp WriterClose; EvOp PortClose; EvClearBuffer; EvClearConsumers ] /\
  ascending (map statedRank (trace (snd (disconnect (connectedRobot [] (fun _ => false))))))
  = false.
Proof. split; reflexivity. Qed.

(* ------------------------------------------------------------------ *)
(** ** Retention of the receive buffer *)

(** C2, on a full buffer: the chunk that makes the buffer exceed 10000
    entries leaves its last 5000, so 5001 entries are removed, and every
    cursor above 5000 is decremented by 5000, one less than the number of
    removed entries. *)
Theorem storeChunk_decrements_by_5000 :
  let w := bufferedRobot 10000 [10000; 7000; 5001; 3000] in
  let w' := storeChunk (lit "x") 1 w in
  length (serialBuffer w') = 5000 /\
  length (serialBuffer w) + 1 - length (serialBuffer w') = 5001 /\
  map position (bufferConsumers w') = [5000; 2000; 1; 0] /\
  map (fun c => position c - 5001) (bufferConsumers w) = [4999; 1999; 0; 0].
Proof.
  cbv zeta.
  split; [vm_compute; reflexivity|].
  split; [vm_compute; reflexivity|].
  split; vm_compute; reflexivity.
Qed.

(* ================================================================== *)
(** * Further properties of the controller *)

(* ------------------------------------------------------------------ *)
(** ** Upload: the chunks, the target and the failures *)

Lemma positive_indices (m a : nat) :
  0 < a -> map (fun i => 0 <? i) (seq a m) = repeat true m.
Proof.
  revert a. induction m as [|m IH]; intros a Ha; [reflexivity|].
  cbn [seq map repeat]. rewrite IH by lia. f_equal. apply Nat.ltb_lt. exact Ha.
Qed.

Lemma firstn_repeat_le {A} (x : A) (k n : nat) :
  k <= n -> firstn k (repeat x n) = repeat x k.
Proof.
  revert n. induction k as [|k IH]; intros n H; [reflexivity|].
  destruct n as [|n]; [lia|]. cbn [repeat firstn]. rewrite IH by lia. reflexivity.
Qed.

Lemma append_flags (n : nat) :
  map (fun i => 0 <? i) (seq 0 n) = firstn n (false :: repeat true n).
Proof.
  destruct n as [|n]; [reflexivity|].
  cbn [seq map firstn]. rewrite positive_indices by lia.
  rewrite firstn_repeat_le by lia. reflexivity.
Qed.

(** X1.  The chunks of an upload partition the payload: they are
    [ceil(n / 1024)] pieces, none empty and none longer than 1024 code units,
    whose concatenation is the payload; the first is written with
    [append = false] and every later one with [append = true]. *)
Theorem uploadChunks_partition (code : str) :
  length (uploadChunks code) = JS.ceilDiv (length code) 1024 /\
  concat (map fst (uploadChunks code)) = code /\
  Forall (fun c => 0 < length (fst c) <= 1024) (uploadChunks code) /\
  map snd (uploadChunks code)
  = firstn (length (uploadChunks code)) (false :: repeat true (length (uploadChunks code))).
Proof.
  assert (Hc : 0 < this_chunkSize) by (unfold this_chunkSize; lia).
  split; [apply uploadChunks_length|]. split.
  { rewrite uploadChunks_slices. now apply slices_concat. }
  split.
  { apply (proj1 (Forall_map fst (fun p => 0 < length p <= 1024) (uploadChunks code))).
    rewrite uploadChunks_slices. now apply slices_bounds. }
  rewrite uploadChunks_length. unfold uploadChunks. cbv zeta.
  rewrite map_map. cbn [snd]. apply append_flags.
Qed.

Lemma uploadCode_unfold (code filename : str) (w : World) :
  connected w = true ->
  uploadCode code filename w
  = (forEach (uploadChunks code)
       (fun '(chunk, append) =>
          executeCodeRaw
            (wrapCodeHex (CodeString chunk) (Some (uploadTarget code filename)) append) true) ;;
     ret true) w.
Proof. intros H. unfold uploadCode, uploadTarget. now rewrite H. Qed.

(** X2.  Uploading the empty payload makes no iteration: on a connected
    controller the call returns true without writing anything to the device,
    so no file is created or emptied there. *)
Theorem uploadCode_empty_payload (filename : str) (w : World) :
  connected w = true -> uploadCode [] filename w = (Ret true, w).
Proof. intros H. rewrite (uploadCode_unfold [] filename w H). reflexivity. Qed.

Lemma uploadCode_empty_payload_witness :
  uploadCode [] (lit "main.py") (connectedRobot [] (fun _ => false))
  = (Ret true, connectedRobot [] (fun _ => false)).
Proof.
  exact (uploadCode_empty_payload (lit "main.py") (connectedRobot [] (fun _ => false)) eq_refl).
Defined.

Lemma startsWith_prefix (p t : str) : JS.startsWith (p ++ t) p = true.
Proof.
  induction p as [|c p IH]; [now destruct t|]. cbn. now rewrite N.eqb_refl, IH.
Qed.

Lemma trimStart_white (ws t : str) :
  forallb JS.isWhiteSpace ws = true -> JS.trimStart (ws ++ t) = JS.trimStart t.
Proof.
  induction ws as [|c ws IH]; [reflexivity|]. cbn [forallb app JS.trimStart].
  intros H. apply andb_true_iff in H as [-> H]. now apply IH.
Qed.

Lemma takeNonWhiteSpace_token (name rest : str) :
  forallb (fun c => negb (JS.isWhiteSpace c)) name = true ->
  rest = [] \/ (exists c t, rest = c :: t /\ JS.isWhiteSpace c = true) ->
  takeNonWhiteSpace (name ++ rest) = name.
Proof.
  intros Hn Hr. induction name as [|c name IH].
  - destruct Hr as [->|(c & t & -> & Hc)]; [reflexivity|]. cbn. now rewrite Hc.
  - cbn [forallb] in Hn. apply andb_true_iff in Hn as [Hc Hn].
    apply negb_true_iff in Hc. cbn [app takeNonWhiteSpace]. rewrite Hc. f_equal. now apply IH.
Qed.

Lemma matchFilename_here (s m : str) :
  matchFilenameAt s = Some m -> matchFilename s = Some m.
Proof. intros H. destruct s; cbn [matchFilename]; now rewrite H. Qed.

(** X4.  A payload that begins with [# filename: ], then any white space
    (line breaks included), then a name free of white space that ends the
    payload or is followed by white space, is uploaded to that name, whatever
    the [filename] argument. *)
Theorem uploadTarget_directive (ws name rest filename : str) :
  forallb JS.isWhiteSpace ws = true ->
  name <> [] ->
  forallb (fun c => negb (JS.isWhiteSpace c)) name = true ->
  rest = [] \/ (exists c t, rest = c :: t /\ JS.isWhiteSpace c = true) ->
  uploadTarget (lit "# filename: " ++ ws ++ name ++ rest) filename = name.
Proof.
  intros Hws Hne Hname Hrest. unfold uploadTarget.
  rewrite startsWith_prefix.
  rewrite (matchFilename_here (lit "# filename: " ++ ws ++ name ++ rest) name); [reflexivity|].
  unfold matchFilenameAt.
  change (lit "# filename: " ++ ws ++ name ++ rest)
    with (lit "# filename:" ++ ([32%N] ++ ws) ++ name ++ rest).
  rewrite startsWith_prefix.
  change 11 with (length (lit "# filename:")). rewrite skipn_length_app.
  rewrite trimStart_white by (cbn [app forallb]; now rewrite Hws).
  destruct name as [|c name]; [now elim Hne|].
  assert (Hc : JS.isWhiteSpace c = false).
  { cbn [forallb] in Hname. apply andb_true_iff in Hname as [Hc _].
    now apply negb_true_iff in Hc. }
  cbn [app JS.trimStart]. rewrite Hc.
  change (c :: name ++ rest) with ((c :: name) ++ rest).
  rewrite (takeNonWhiteSpace_token (c :: name) rest Hname Hrest). reflexivity.
Qed.

Lemma uploadTarget_directive_witness :
  uploadTarget (lit "# filename: " ++ [10%N] ++ lit "boot.py" ++ [10%N] ++ lit "x = 1")
    (lit "main.py")
  = lit "boot.py".
Proof.
  apply (uploadTarget_directive [10%N] (lit "boot.py") ([10%N] ++ lit "x = 1") (lit "main.py")).
  - reflexivity.
  - discriminate.
  - reflexivity.
  - right. exists 10%N, (lit "x = 1"). split; reflexivity.
Defined.

(* ------------------------------------------------------------------ *)
(** ** Connection: set-up and teardown *)

(** X5.  [connect()] sets [connected] exactly when it returns true: from a
    controller that is not connected, every other ending (the refusal for a
    browser without Web Serial, the false returned for a cancelled port
    selection, the error rethrown) leaves [connected] false. *)
Theorem connect_connected_iff (browser : Browser) (w : World) :
  connected w = false ->
  (connected (snd (connect browser w)) = true <->
   fst (connect browser w) = ConnectReturns true).
Proof.
  intros Hc. unfold connect, connectAttempt, startBackgroundReading.
  destruct browser as [s [|m1] [|m2] [|m3] [|m4]]; cbn [serialInNavigator requestPort
    portOpen getReader getWriter negb];
    destruct s; cbn [negb fst snd];
    repeat match goal with
           | |- context [if ?b then _ else _] => destruct b eqn:?
           end;
    cbn [fst snd connected set_port set_reader set_writer set_connected
         set_backgroundReadActive set_backgroundReadPromise];
    rewrite ?Hc; split; intros H; try discriminate H; try reflexivity.
Qed.

Lemma connect_connected_iff_witness :
  connected (snd (connect willingBrowser (newRobotController [] (fun _ => false)))) = true <->
  fst (connect willingBrowser (newRobotController [] (fun _ => false))) = ConnectReturns true.
Proof.
  exact (connect_connected_iff willingBrowser (newRobotController [] (fun _ => false)) eq_refl).
Defined.

Lemma stopBackgroundReading_fields (w : World) :
  fieldsOf (snd (stopBackgroundReading w))
  = (port w, reader w, writer w, connected w, lastLineEcho w, serialBuffer w,
     false, false, bufferConsumers w, lastBufferPosition w).
Proof.
  unfold stopBackgroundReading. destruct w as [p r wr c e b a [] cs lp no ps f t]; reflexivity.
Qed.

Lemma disconnect_rest_fields (w : World) :
  reader w = true -> writer w = true -> port w = true ->
  (forall op, faulty w op = false) ->
  fieldsOf (snd (disconnect_rest w))
  = (false, false, false, false, lastLineEcho w, [],
     backgroundReadActive w, backgroundReadPromise w, [], 0).
Proof.
  intros Hr Hw Hp Hf. unfold disconnect_rest, bind, update.
  rewrite Hr. cbn [when]. unfold bind, update.
  rewrite (transportOp_ok ReaderCancel w (Hf _)).
  rewrite transportOp_ok by apply Hf.
  cbn [writer set_reader emit set_trace]. rewrite Hw. cbn [when]. unfold bind, update.
  rewrite transportOp_ok by apply Hf.
  cbn [port set_reader set_writer emit set_trace]. rewrite Hp. cbn [when]. unfold bind, update.
  rewrite transportOp_ok by apply Hf.
  reflexivity.
Qed.

(** After a [disconnect()] that meets no rejection, nothing is held and
    nothing is buffered. *)
Lemma disconnect_fields (w : World) :
  reader w = true -> writer w = true -> port w = true ->
  (forall op, faulty w op = false) ->
  fieldsOf (snd (disconnect w))
  = (false, false, false, false, lastLineEcho w, [], false, false, [], 0).
Proof.
  intros Hr Hw Hp Hf.
  destruct (stopBackgroundReading_result w) as (w1 & Hs & T1 & R1 & W1 & P1 & F1).
  pose proof (stopBackgroundReading_fields w) as S1. rewrite Hs in S1. cbn [snd] in S1.
  unfold fieldsOf in S1. injection S1 as _ _ _ _ E1 _ A1 B1 _ _.
  unfold disconnect. fold disconnect_rest. rewrite (bind_Ret _ _ _ Hs).
  assert (Hf1 : forall op, faulty w1 op = false) by (intros op; rewrite F1; apply Hf).
  rewrite (disconnect_rest_fields w1 ltac:(congruence) ltac:(congruence)
             ltac:(congruence) Hf1).
  now rewrite E1, A1, B1.
Qed.

(** X6.  On a fresh controller, a [connect()] in which every step succeeds
    leaves the three handles held, [connected] set and the background reader
    started; a [disconnect()] none of whose operations rejects then returns
    and leaves every field as the constructor set it. *)
Theorem connect_disconnect_round_trip (polls : list str) (faulty : TransportOp -> bool) :
  (forall op, faulty op = false) ->
  connect willingBrowser (newRobotController polls faulty)
  = (ConnectReturns true, connectedRobot polls faulty) /\
  fst (disconnect (connectedRobot polls faulty)) = Ret tt /\
  fieldsOf (snd (disconnect (connectedRobot polls faulty)))
  = fieldsOf (newRobotController polls faulty).
Proof.
  intros Hf. split; [reflexivity|]. split.
  - now apply disconnect_complete.
  - now rewrite disconnect_fields.
Qed.

Lemma connect_disconnect_round_trip_witness :
  fst (disconnect (connectedRobot [] (fun _ => false))) = Ret tt /\
  fieldsOf (snd (disconnect (connectedRobot [] (fun _ => false))))
  = fieldsOf (newRobotController [] (fun _ => false)).
Proof.
  exact (proj2 (connect_disconnect_round_trip [] (fun _ => false) (fun _ => eq_refl))).
Defined.

Lemma kept_refl (w : World) : kept w w.
Proof. repeat split. Qed.

Lemma kept_trans (w1 w2 w3 : World) : kept w1 w2 -> kept w2 w3 -> kept w1 w3.
Proof. unfold kept. intros (A & B & C & D) (A' & B' & C' & D'). repeat split; congruence. Qed.

Lemma framed_bind {A B} (m : M A) (f : A -> M B) :
  framed m -> (forall a, framed (f a)) -> framed (x <- m ;; f x).
Proof.
  intros Hm Hf w. destruct (Hm w) as [K1 T1]. unfold bind.
  destruct (m w) as [[a|e|] w1]; cbn [fst snd] in *.
  - destruct (Hf a w1) as [K2 T2]. split; [eapply kept_trans; eassumption|].
    intros e He. destruct (T2 e He) as (op & -> & Hop). exists op. split; [reflexivity|].
    destruct K1 as (_ & _ & _ & <-). exact Hop.
  - split; [exact K1|]. intros e0 He. injection He as <-. now apply T1.
  - split; [exact K1 | intros e He; discriminate].
Qed.

Lemma framedOnThrow_bind {A B} (m : M A) (f : A -> M B) :
  framed m -> (forall a, framedOnThrow (f a)) -> framedOnThrow (x <- m ;; f x).
Proof.
  intros Hm Hf w e. destruct (Hm w) as [K1 T1]. unfold bind.
  destruct (m w) as [[a|e1|] w1]; cbn [fst snd] in *; intros He.
  - destruct (Hf a w1 e He) as [K2 (op & -> & Hop)].
    split; [eapply kept_trans; eassumption|]. exists op. split; [reflexivity|].
    destruct K1 as (_ & _ & _ & <-). exact Hop.
  - injection He as <-. split; [exact K1 | now apply T1].
  - discriminate.
Qed.

Lemma framed_transportOp (op : TransportOp) : framed (transportOp op).
Proof.
  intros w. unfold transportOp, emit.
  destruct w as [p r wr c e b a pr cs lp no ps f t]. cbn.
  destruct (f op) eqn:F; cbn; split; try (repeat split; fail); intros e' He; try discriminate.
  injection He as <-. exists op. now split.
Qed.

Lemma framed_update (g : World -> World) :
  (forall w, kept w (g w)) -> framed (update g).
Proof. intros H w. split; [apply H | intros e He; discriminate]. Qed.

Lemma framed_when (b : bool) (m : M unit) : framed m -> framed (when b m).
Proof.
  intros H. destruct b; [exact H|]. intros w. split; [apply kept_refl | intros e He; discriminate].
Qed.

Lemma framed_here {A} (g : World -> M A) :
  (forall w0, framed (g w0)) -> framed (fun w => g w w).
Proof. intros H w. exact (H w w). Qed.

Lemma framed_stopBackgroundReading : framed stopBackgroundReading.
Proof.
  intros w. unfold stopBackgroundReading.
  destruct w as [p r wr c e b a [] cs lp no ps f t]; cbn;
    (split; [repeat split | intros e' He; discriminate]).
Qed.

(** X7.  When [disconnect()] throws, the error is the rejection of one of
    the handle operations, and the call has cleared nothing: [connected], the
    receive buffer and the consumers are as before the call, so the
    controller still reports the state it had. *)
Theorem disconnect_throw_clears_nothing (w : World) (e : Error) :
  fst (disconnect w) = Throw e ->
  (exists op, e = TransportError op /\ faulty w op = true) /\
  connected (snd (disconnect w)) = connected w /\
  serialBuffer (snd (disconnect w)) = serialBuffer w /\
  bufferConsumers (snd (disconnect w)) = bufferConsumers w.
Proof.
  assert (H : framedOnThrow disconnect).
  { unfold disconnect.
    apply framedOnThrow_bind; [apply framed_stopBackgroundReading|]. intros _.
    apply framedOnThrow_bind.
    { refine (framed_here (fun w0 => when (reader w0) _) _). intros w0. apply framed_when.
      apply framed_bind; [apply framed_transportOp|]. intros _.
      apply framed_bind; [apply framed_transportOp|]. intros _.
      apply framed_update. intros w1. repeat split. }
    intros _. apply framedOnThrow_bind.
    { refine (framed_here (fun w0 => when (writer w0) _) _). intros w0. apply framed_when.
      apply framed_bind; [apply framed_transportOp|]. intros _.
      apply framed_update. intros w1. repeat split. }
    intros _. apply framedOnThrow_bind.
    { refine (framed_here (fun w0 => when (port w0) _) _). intros w0. apply framed_when.
      apply framed_bind; [apply framed_transportOp|]. intros _.
      apply framed_update. intros w1. repeat split. }
    intros _ w1 e1 He1. discriminate He1. }
  intros He. destruct (H w e He) as [(K1 & K2 & K3 & _) R].
  repeat split; assumption.
Qed.

Lemma disconnect_throw_clears_nothing_witness :
  (exists op, TransportError PortClose = TransportError op /\ stuckPort op = true) /\
  connected (snd (disconnect (connectedRobot [] stuckPort))) = true /\
  serialBuffer (snd (disconnect (connectedRobot [] stuckPort))) = [] /\
  bufferConsumers (snd (disconnect (connectedRobot [] stuckPort))) = [].
Proof.
  exact (disconnect_throw_clears_nothing (connectedRobot [] stuckPort)
           (TransportError PortClose) eq_refl).
Defined.

(** X8.  After a [disconnect()] in which only [port.close()] rejects, the
    reader and the writer are released while [isConnected()] still answers
    true; [executeCodeRaw] then fails with a type error (it calls [write] on
    the null writer), not with the not-connected error. *)
Theorem disconnect_port_close_rejected (w : World) (code : str) (retry : bool) :
  connected w = true -> reader w = true -> writer w = true -> port w = true ->
  faulty w ReaderCancel = false -> faulty w ReaderReleaseLock = false ->
  faulty w WriterClose = false -> faulty w PortClose = true ->
  fst (disconnect w) = Throw (TransportError PortClose) /\
  isConnected (snd (disconnect w)) = true /\
  reader (snd (disconnect w)) = false /\
  writer (snd (disconnect w)) = false /\
  port (snd (disconnect w)) = true /\
  fst (executeCodeRaw code retry (snd (disconnect w))) = Throw TypeError.
Proof.
  intros Hc Hr Hw Hp F1 F2 F3 F4.
  destruct (stopBackgroundReading_result w) as (w1 & Hs & T1 & R1 & W1 & P1 & Fw).
  pose proof (stopBackgroundReading_fields w) as S1. rewrite Hs in S1. cbn [snd] in S1.
  unfold fieldsOf in S1. injection S1 as _ _ _ C1 _ _ _ _ _ _.
  assert (Hd : disconnect w = disconnect_rest w1).
  { unfold disconnect. fold disconnect_rest. now rewrite (bind_Ret _ _ _ Hs). }
  rewrite Hd. rewrite <- Fw in F1, F2, F3, F4. rewrite <- R1 in Hr. rewrite <- W1 in Hw.
  rewrite <- P1 in Hp. rewrite <- C1 in Hc. clear Hd Hs T1 R1 W1 P1 Fw C1. revert Hc Hr Hw Hp F1 F2 F3 F4.
  generalize w1. clear w w1. intros w Hc Hr Hw Hp F1 F2 F3 F4.
  assert (E : disconnect_rest w
              = (Throw (TransportError PortClose),
                 emit (EvOp PortClose)
                   (set_writer false
                      (emit (EvOp WriterClose)
                         (set_reader false
                            (emit (EvOp ReaderReleaseLock) (emit (EvOp ReaderCancel) w))))))).
  { unfold disconnect_rest, bind, update.
    rewrite Hr. cbn [when]. unfold bind, update.
    rewrite (transportOp_ok ReaderCancel w F1).
    rewrite transportOp_ok by exact F2.
    cbn [writer set_reader emit set_trace]. rewrite Hw. cbn [when]. unfold bind, update.
    rewrite transportOp_ok by exact F3.
    cbn [port set_reader set_writer emit set_trace]. rewrite Hp. cbn [when]. unfold bind.
    unfold transportOp at 1. cbn [faulty emit set_trace set_writer set_reader].
    rewrite F4. reflexivity. }
  rewrite E. cbn [fst snd]. repeat split; try assumption.
  unfold executeCodeRaw, isConnected. cbn [connected emit set_trace set_writer set_reader].
  rewrite Hc. reflexivity.
Qed.

Lemma disconnect_port_close_rejected_witness :
  fst (disconnect (connectedRobot [] stuckPort)) = Throw (TransportError PortClose) /\
  isConnected (snd (disconnect (connectedRobot [] stuckPort))) = true /\
  reader (snd (disconnect (connectedRobot [] stuckPort))) = false /\
  writer (snd (disconnect (connectedRobot [] stuckPort))) = false /\
  port (snd (disconnect (connectedRobot [] stuckPort))) = true /\
  fst (executeCodeRaw (lit "x = 1") true (snd (disconnect (connectedRobot [] stuckPort))))
  = Throw TypeError.
Proof.
  exact (disconnect_port_close_rejected (connectedRobot [] stuckPort) (lit "x = 1") true
           eq_refl eq_refl eq_refl eq_refl eq_refl eq_refl eq_refl eq_refl).
Defined.

(** X9.  [handleUnexpectedDisconnect()] performs no operation on the
    handles: it returns after the stop of the background reader and the two
    clearing steps, and leaves nothing held and nothing buffered, which is
    what a [disconnect()] that meets no rejection leaves. *)
Theorem handleUnexpectedDisconnect_cleanup (w : World) :
  fst (handleUnexpectedDisconnect w) = Ret tt /\
  trace (snd (handleUnexpectedDisconnect w))
  = trace w ++ [EvStopBackgroundReading; EvClearBuffer; EvClearConsumers] /\
  fieldsOf (snd (handleUnexpectedDisconnect w))
  = (false, false, false, false, lastLineEcho w, [], false, false, [], 0) /\
  (reader w = true -> writer w = true -> port w = true ->
   (forall op, faulty w op = false) ->
   fieldsOf (snd (disconnect w)) = fieldsOf (snd (handleUnexpectedDisconnect w))).
Proof.
  assert (H : fst (handleUnexpectedDisconnect w) = Ret tt /\
              trace (snd (handleUnexpectedDisconnect w))
              = trace w ++ [EvStopBackgroundReading; EvClearBuffer; EvClearConsumers] /\
              fieldsOf (snd (handleUnexpectedDisconnect w))
              = (false, false, false, false, lastLineEcho w, [], false, false, [], 0)).
  { unfold handleUnexpectedDisconnect, bind, update, stopBackgroundReading, emit.
    destruct w as [p r wr c e b a [] cs lp no ps f t]; cbn;
      rewrite <- !app_assoc; repeat split. }
  destruct H as (H1 & H2 & H3). repeat split; try assumption.
  intros Hr Hw Hp Hf. now rewrite H3, disconnect_fields.
Qed.

Lemma handleUnexpectedDisconnect_cleanup_witness :
  fieldsOf (snd (disconnect (connectedRobot [] (fun _ => false))))
  = fieldsOf (snd (handleUnexpectedDisconnect (connectedRobot [] (fun _ => false)))).
Proof.
  exact (proj2 (proj2 (proj2 (handleUnexpectedDisconnect_cleanup
                                (connectedRobot [] (fun _ => false)))))
           eq_refl eq_refl eq_refl (fun _ => eq_refl)).
Defined.

(* ------------------------------------------------------------------ *)
(** ** The receive buffer: bounds, order and what a consumer reads *)

Ltac retention_literals :=
  change 10000 with (N.to_nat 10000%N) in *; change 5000 with (N.to_nat 5000%N) in *.

Lemma storeChunk_buffer (chunk : str) (now : N) (w : World) :
  serialBuffer (storeChunk chunk now w)
  = let buffer := serialBuffer w ++ [{| data := chunk; timestamp := now |}] in
    if 10000 <? length buffer then skipn (length buffer - 5000) buffer else buffer.
Proof.
  unfold storeChunk. cbv zeta. cbn [serialBuffer set_serialBuffer].
  destruct (10000 <? _); reflexivity.
Qed.

Lemma storeChunk_consumers (chunk : str) (now : N) (w : World) :
  bufferConsumers (storeChunk chunk now w)
  = if 10000 <? length (serialBuffer w ++ [{| data := chunk; timestamp := now |}])
    then map (fun consumer =>
                if 5000 <? position consumer
                then {| oid := oid consumer; id := id consumer;
                        position := position consumer - 5000 |}
                else {| oid := oid consumer; id := id consumer; position := 0 |})
             (bufferConsumers w)
    else bufferConsumers w.
Proof.
  unfold storeChunk. cbv zeta. cbn [serialBuffer set_serialBuffer].
  destruct (10000 <? _); reflexivity.
Qed.

Lemma storeChunk_flags (chunk : str) (now : N) (w : World) :
  backgroundReadActive (storeChunk chunk now w) = backgroundReadActive w /\
  connected (storeChunk chunk now w) = connected w /\
  reader (storeChunk chunk now w) = reader w.
Proof.
  unfold storeChunk. cbv zeta. cbn [serialBuffer set_serialBuffer].
  destruct (10000 <? _); repeat split.
Qed.

Lemma storeChunk_invariant (chunk : str) (now : N) (w : World) :
  bufferBounded w -> cursorsInRange w ->
  bufferBounded (storeChunk chunk now w) /\ cursorsInRange (storeChunk chunk now w).
Proof.
  unfold bufferBounded, cursorsInRange. intros Hb Hc.
  rewrite storeChunk_buffer, storeChunk_consumers. cbv zeta.
  rewrite length_app. cbn [length].
  destruct (10000 <? length (serialBuffer w) + 1) eqn:E.
  - apply Nat.ltb_lt in E. rewrite length_skipn, length_app. cbn [length].
    retention_literals. split; [lia|].
    apply (proj2 (Forall_map _ _ _)). eapply Forall_impl; [|exact Hc].
    intros c Hp. cbv beta in *.
    destruct (N.to_nat 5000 <? position c) eqn:E5; cbn [position]; [|lia].
    apply Nat.ltb_lt in E5. lia.
  - apply Nat.ltb_ge in E. rewrite length_app. cbn [length].
    retention_literals. split; [lia|].
    eapply Forall_impl; [|exact Hc]. intros c Hp. cbv beta in *. lia.
Qed.

(** X10.  The background reader keeps the retention invariants: if the
    buffer holds at most 10000 entries and every consumer's cursor is within
    the buffer, the same holds after the loop has handled any sequence of
    read results. *)
Theorem backgroundReadLoop_invariant (reads : list ReadResult) (w : World) :
  bufferBounded w -> cursorsInRange w ->
  bufferBounded (backgroundReadLoop reads w) /\ cursorsInRange (backgroundReadLoop reads w).
Proof.
  revert w. induction reads as [|r reads IH]; intros w Hb Hc.
  - cbn [backgroundReadLoop]. destruct (_ && _ && _); now split.
  - cbn [backgroundReadLoop]. destruct (_ && _ && _); [|now split].
    destruct r as [chunk now| |]; [|now split|now apply IH].
    destruct (JS.falsy chunk); [now apply IH|].
    destruct (storeChunk_invariant chunk now w Hb Hc) as [Hb' Hc']. now apply IH.
Qed.

Lemma backgroundReadLoop_invariant_witness :
  bufferBounded
    (backgroundReadLoop [ReadValue (lit "a") 1; ReadError; ReadValue (lit "b") 2]
       (connectedRobot [] (fun _ => false))) /\
  cursorsInRange
    (backgroundReadLoop [ReadValue (lit "a") 1; ReadError; ReadValue (lit "b") 2]
       (connectedRobot [] (fun _ => false))).
Proof.
  apply (backgroundReadLoop_invariant
           [ReadValue (lit "a") 1; ReadError; ReadValue (lit "b") 2]
           (connectedRobot [] (fun _ => false))).
  - unfold bufferBounded. cbn [connectedRobot serialBuffer length]. apply Nat.le_0_l.
  - constructor.
Defined.

(** X11.  Storing a chunk removes entries from the old end of the buffer
    only: the new buffer is a suffix of the old one followed by the new
    entry, the new entry is its last element, and when anything is removed
    exactly 5000 entries remain. *)
Theorem storeChunk_keeps_most_recent (chunk : str) (now : N) (w : World) :
  exists dropped retained,
    serialBuffer w = dropped ++ retained /\
    serialBuffer (storeChunk chunk now w)
    = retained ++ [{| data := chunk; timestamp := now |}] /\
    (dropped = [] \/ length (serialBuffer (storeChunk chunk now w)) = 5000).
Proof.
  rewrite storeChunk_buffer. cbv zeta. rewrite length_app. cbn [length].
  destruct (10000 <? length (serialBuffer w) + 1) eqn:E.
  - apply Nat.ltb_lt in E.
    exists (firstn (length (serialBuffer w) + 1 - 5000) (serialBuffer w)),
           (skipn (length (serialBuffer w) + 1 - 5000) (serialBuffer w)).
    split; [symmetry; apply firstn_skipn|]. split.
    + rewrite skipn_app.
      replace (length (serialBuffer w) + 1 - 5000 - length (serialBuffer w)) with 0
        by (retention_literals; lia).
      reflexivity.
    + right. rewrite length_skipn, length_app. cbn [length]. retention_literals. lia.
  - exists [], (serialBuffer w). repeat split. now left.
Qed.

Lemma find_map_same_oid (g : Consumer -> Consumer) (o : nat) (l : list Consumer) :
  (forall c, oid (g c) = oid c) ->
  find (fun c => oid c =? o) (map g l) = option_map g (find (fun c => oid c =? o) l).
Proof.
  intros Hg. induction l as [|c l IH]; [reflexivity|].
  cbn [map find]. rewrite Hg. destruct (oid c =? o); [reflexivity | exact IH].
Qed.

(** X12.  The entry a truncation makes a consumer miss.  When the buffer
    holds 10000 entries and a consumer's cursor [p] is above 5000, the chunk
    that triggers the truncation leaves the cursor one entry too far: the
    consumer's next [readNew] returns the entries after index [p + 1] of the
    old buffer followed by the new entry, and the entry at index [p], which
    it had not read, is never delivered to it. *)
Theorem readNew_after_truncation (w : World) (chunk : str) (now : N) (o : nat) (c : Consumer) :
  length (serialBuffer w) = 10000 ->
  find (fun c => oid c =? o) (bufferConsumers w) = Some c ->
  5000 < position c -> position c <= 10000 ->
  exists missed,
    skipn (position c) (serialBuffer w ++ [{| data := chunk; timestamp := now |}])
    = missed :: skipn (S (position c))
                  (serialBuffer w ++ [{| data := chunk; timestamp := now |}]) /\
    fst (readNew o (storeChunk chunk now w))
    = joinData (skipn (S (position c))
                  (serialBuffer w ++ [{| data := chunk; timestamp := now |}])).
Proof.
  intros Hlen Hfind Hlo Hhi.
  set (buffer := serialBuffer w ++ [{| data := chunk; timestamp := now |}]).
  assert (Hbl : length buffer = 10000 + 1) by (unfold buffer; rewrite length_app, Hlen; reflexivity).
  assert (Hmiss : exists missed, skipn (position c) buffer = missed :: skipn (S (position c)) buffer).
  { destruct (skipn (position c) buffer) as [|x rest] eqn:E.
    - apply (f_equal (@length _)) in E. rewrite length_skipn, Hbl in E. cbn [length] in E.
      retention_literals. lia.
    - exists x. f_equal.
      change (S (position c)) with (1 + position c). rewrite <- skipn_skipn, E. reflexivity. }
  destruct Hmiss as [missed Hmiss]. exists missed. split; [exact Hmiss|].
  unfold readNew. rewrite storeChunk_consumers, storeChunk_buffer. cbv zeta. fold buffer.
  assert (Hgt : (10000 <? length buffer) = true)
    by (apply Nat.ltb_lt; rewrite Hbl; retention_literals; lia).
  rewrite Hgt.
  rewrite find_map_same_oid by (intros c'; destruct (5000 <? position c'); reflexivity).
  rewrite Hfind. cbn [option_map fst].
  assert (H5 : (5000 <? position c) = true) by (now apply Nat.ltb_lt).
  rewrite H5. cbn [position]. rewrite skipn_skipn. f_equal. f_equal.
  rewrite Hbl. retention_literals. lia.
Qed.

Lemma readNew_after_truncation_witness :
  exists missed,
    skipn 10000 (serialBuffer (bufferedRobot 10000 [10000]) ++ [{| data := lit "x"; timestamp := 1 |}])
    = missed :: skipn 10001
                  (serialBuffer (bufferedRobot 10000 [10000])
                   ++ [{| data := lit "x"; timestamp := 1 |}]) /\
    fst (readNew 10000 (storeChunk (lit "x") 1 (bufferedRobot 10000 [10000])))
    = joinData (skipn 10001
                  (serialBuffer (bufferedRobot 10000 [10000])
                   ++ [{| data := lit "x"; timestamp := 1 |}])).
Proof.
  apply (readNew_after_truncation (bufferedRobot 10000 [10000]) (lit "x") 1 10000
           {| oid := 10000; id := lit "c"; position := 10000 |}).
  - vm_compute. reflexivity.
  - vm_compute. reflexivity.
  - cbn [position]. retention_literals. lia.
  - cbn [position]. retention_literals. lia.
Defined.

Lemma storeChunk_no_truncation (chunk : str) (now : N) (w : World) :
  length (serialBuffer w) < 10000 ->
  serialBuffer (storeChunk chunk now w)
  = serialBuffer w ++ [{| data := chunk; timestamp := now |}] /\
  bufferConsumers (storeChunk chunk now w) = bufferConsumers w.
Proof.
  intros H. rewrite storeChunk_buffer, storeChunk_consumers. cbv zeta.
  assert (E : (10000 <? length (serialBuffer w ++ [{| data := chunk; timestamp := now |}]))
              = false).
  { apply Nat.ltb_ge. rewrite length_app. cbn [length]. retention_literals. lia. }
  rewrite E. split; reflexivity.
Qed.

(** While the buffer stays within its limit, the loop only appends. *)
Lemma backgroundReadLoop_appends (reads : list ReadResult) (w : World) :
  backgroundReadActive w = true -> connected w = true -> reader w = true ->
  length (serialBuffer w) + length reads <= 10000 ->
  exists entries,
    serialBuffer (backgroundReadLoop reads w) = serialBuffer w ++ entries /\
    joinData entries = concat (arrivals reads) /\
    bufferConsumers (backgroundReadLoop reads w) = bufferConsumers w.
Proof.
  revert w. induction reads as [|r reads IH]; intros w Ha Hc Hr Hlen.
  - exists []. cbn [backgroundReadLoop]. rewrite Ha, Hc, Hr, app_nil_r. repeat split.
  - cbn [backgroundReadLoop]. rewrite Ha, Hc, Hr. cbn [andb]. cbn [length] in Hlen.
    destruct r as [chunk now| |].
    + destruct chunk as [|ch chunk]; cbn [JS.falsy].
      * destruct (IH w Ha Hc Hr ltac:(lia)) as (entries & E1 & E2 & E3).
        exists entries. cbn [arrivals concat app]. repeat split; assumption.
      * set (stored := storeChunk (ch :: chunk) now w).
        destruct (storeChunk_no_truncation (ch :: chunk) now w) as [B C];
          [retention_literals; lia|].
        destruct (storeChunk_flags (ch :: chunk) now w) as (Fa & Fc & Fr).
        fold stored in B, C, Fa, Fc, Fr.
        destruct (IH stored) as (entries & E1 & E2 & E3); try congruence.
        { rewrite B, length_app. cbn [length]. lia. }
        exists ({| data := ch :: chunk; timestamp := now |} :: entries).
        rewrite E1, B, <- app_assoc, E3, C. cbn [app arrivals concat joinData flat_map data].
        unfold joinData in E2. rewrite E2. repeat split.
    + exists []. rewrite app_nil_r. repeat split.
    + destruct (IH w Ha Hc Hr ltac:(lia)) as (entries & E1 & E2 & E3).
      exists entries. repeat split; assumption.
Qed.

Lemma find_fresh (o : nat) (l : list Consumer) (c : Consumer) :
  Forall (fun c' => oid c' <> o) l -> oid c = o ->
  find (fun c' => oid c' =? o) (l ++ [c]) = Some c.
Proof.
  intros Hl Hc. induction Hl as [|c' l Hc' _ IH]; cbn [app find].
  - now rewrite Hc, Nat.eqb_refl.
  - apply Nat.eqb_neq in Hc'. now rewrite Hc'.
Qed.

(** X13.  A consumer reads what arrives after its creation, once.  While the
    buffer stays within its limit, [readNew] on a consumer created before the
    background reader handled some reads returns the concatenation of the
    chunks those reads delivered, and a second [readNew] returns the empty
    string. *)
Theorem consumer_reads_arrivals (w : World) (consumerId : str) (reads : list ReadResult) :
  backgroundReadActive w = true -> connected w = true -> reader w = true ->
  length (serialBuffer w) + length reads <= 10000 ->
  Forall (fun c => oid c <> nextOid w) (bufferConsumers w) ->
  let consumer := fst (createBufferConsumer consumerId w) in
  let w1 := backgroundReadLoop reads (snd (createBufferConsumer consumerId w)) in
  fst (readNew (oid consumer) w1) = concat (arrivals reads) /\
  fst (readNew (oid consumer) (snd (readNew (oid consumer) w1))) = [].
Proof.
  intros Ha Hc Hr Hlen Hfresh. cbv zeta.
  set (consumer := {| oid := nextOid w; id := consumerId;
                      position := length (serialBuffer w) |}).
  set (w0 := snd (createBufferConsumer consumerId w)).
  change (fst (createBufferConsumer consumerId w)) with consumer.
  assert (B0 : serialBuffer w0 = serialBuffer w) by reflexivity.
  assert (C0 : bufferConsumers w0 = bufferConsumers w ++ [consumer]) by reflexivity.
  destruct (backgroundReadLoop_appends reads w0 Ha Hc Hr Hlen) as (entries & E1 & E2 & E3).
  set (w1 := backgroundReadLoop reads w0) in *.
  assert (Hfind : find (fun c => oid c =? oid consumer) (bufferConsumers w1) = Some consumer).
  { rewrite E3, C0. now apply find_fresh. }
  assert (R1 : readNew (oid consumer) w1
               = (joinData entries,
                  set_bufferConsumers
                    (map (fun c => if oid c =? oid consumer
                                   then {| oid := oid c; id := id c;
                                           position := length (serialBuffer w1) |}
                                   else c) (bufferConsumers w1)) w1)).
  { unfold readNew. rewrite Hfind. f_equal. f_equal.
    cbn [position consumer]. rewrite E1, B0. now rewrite skipn_length_app. }
  rewrite R1. cbn [fst snd]. split; [exact E2|].
  unfold readNew. cbn [bufferConsumers set_bufferConsumers serialBuffer].
  rewrite find_map_same_oid by (intros c; destruct (oid c =? oid consumer); reflexivity).
  rewrite Hfind. cbn [option_map]. rewrite Nat.eqb_refl. cbn [fst position].
  now rewrite skipn_all.
Qed.

Lemma consumer_reads_arrivals_witness :
  let w := connectedRobot [] (fun _ => false) in
  let reads := [ReadValue (lit "ab") 1; ReadError; ReadValue [] 2; ReadValue (lit "c") 3] in
  fst (readNew 0 (backgroundReadLoop reads (snd (createBufferConsumer (lit "r") w))))
  = concat (arrivals reads) /\
  fst (readNew 0 (snd (readNew 0 (backgroundReadLoop reads
                                    (snd (createBufferConsumer (lit "r") w))))))
  = [].
Proof.
  cbv zeta.
  apply (consumer_reads_arrivals (connectedRobot [] (fun _ => false)) (lit "r")
           [ReadValue (lit "ab") 1; ReadError; ReadValue [] 2; ReadValue (lit "c") 3]
           eq_refl eq_refl eq_refl).
  - cbn [connectedRobot serialBuffer length Nat.add]. retention_literals. lia.
  - constructor.
Defined.

(** X23.  [reset()] discards what the consumer has not read: after it, a
    [readNew] on the same consumer returns the empty string, while the buffer
    itself is untouched. *)
Theorem reset_discards_unread (w : World) (o : nat) (c : Consumer) :
  find (fun c => oid c =? o) (bufferConsumers w) = Some c ->
  fst (readNew o (resetConsumer o w)) = [] /\
  serialBuffer (resetConsumer o w) = serialBuffer w.
Proof.
  intros Hfind. split; [|reflexivity].
  unfold readNew, resetConsumer. cbn [bufferConsumers set_bufferConsumers serialBuffer].
  rewrite find_map_same_oid by (intros c'; destruct (oid c' =? o); reflexivity).
  rewrite Hfind. cbn [option_map].
  apply find_some in Hfind as [_ Ho]. rewrite Ho. cbn [fst position].
  now rewrite skipn_all.
Qed.

Lemma reset_discards_unread_witness :
  fst (readNew 3 (resetConsumer 3 (bufferedRobot 5 [3]))) = [] /\
  serialBuffer (resetConsumer 3 (bufferedRobot 5 [3])) = serialBuffer (bufferedRobot 5 [3]).
Proof.
  exact (reset_discards_unread (bufferedRobot 5 [3]) 3
           {| oid := 3; id := lit "c"; position := 3 |} eq_refl).
Defined.

(* ------------------------------------------------------------------ *)
(** ** The prompt scanner: partial reads, results and the consumer *)

Lemma processData_app (p d : str) :
  (if JS.falsy p then d else p ++ d) = p ++ d.
Proof. now destruct p. Qed.

Lemma scanStep_echo_wait (st : Scan) (d : str) :
  receiveMode st = 0 -> d <> [] ->
  scanStep st d =
  match JS.indexOf (pending st ++ d) crlf with
  | None =>
      Continue {| receiveMode := 0; pending := pending st ++ d;
                  retryCount := retryCount st; output := output st; echo := echo st |}
  | Some idx =>
      let st' := {| receiveMode := 1; pending := [];
                    retryCount := retryCount st; output := output st;
                    echo := JS.substring (pending st ++ d) 0 idx |} in
      if JS.falsy (JS.substringFrom (pending st ++ d) (idx + 2)) then Continue st'
      else scanPrompt st' (JS.substringFrom (pending st ++ d) (idx + 2))
  end.
Proof.
  intros Hm Hd. unfold scanStep. destruct d as [|c d]; [now elim Hd|].
  cbn [JS.falsy]. rewrite processData_app, Hm. cbn [Nat.eqb].
  destruct (JS.indexOf (pending st ++ c :: d) crlf); reflexivity.
Qed.

Lemma scanLoop_echo_split (st : Scan) (a b : str) (rest : list str) :
  receiveMode st = 0 -> retryCount st < 3 -> a <> [] -> b <> [] ->
  JS.indexOf (pending st ++ a) crlf = None ->
  scanLoop st (a :: b :: rest) = scanLoop st ((a ++ b) :: rest).
Proof.
  intros Hm Hr Ha Hb Hnone.
  assert (Hab : a ++ b <> []) by (destruct a; [now elim Ha | discriminate]).
  rewrite (scanLoop_cons st a (b :: rest) Hr).
  rewrite (scanStep_echo_wait st a Hm Ha), Hnone.
  rewrite !scanLoop_cons by exact Hr.
  rewrite (fun s H => scanStep_echo_wait s b H Hb) by reflexivity.
  rewrite (scanStep_echo_wait st _ Hm Hab).
  cbn [pending retryCount output echo]. rewrite <- app_assoc. reflexivity.
Qed.

(** X14.  How the echo of the sent line is cut into polls does not matter:
    when the first poll holds no line terminator, [readUntilPrompt] behaves
    on two successive polls with data as on the single poll that holds their
    concatenation. *)
Theorem readUntilPrompt_echo_split (w : World) (a b : str) (rest : list str) :
  connected w = true -> a <> [] -> b <> [] ->
  JS.indexOf a crlf = None ->
  readUntilPrompt (set_polls (a :: b :: rest) w)
  = readUntilPrompt (set_polls ((a ++ b) :: rest) w).
Proof.
  intros Hc Ha Hb Hnone.
  rewrite (readUntilPrompt_scan (set_polls (a :: b :: rest) w) Hc).
  rewrite (readUntilPrompt_scan (set_polls ((a ++ b) :: rest) w) Hc).
  cbv zeta. cbn [polls lastLineEcho set_polls].
  rewrite (scanLoop_echo_split (scanStart (lastLineEcho w)) a b rest eq_refl
             ltac:(cbn; lia) Ha Hb Hnone).
  destruct (scanLoop _ _); reflexivity.
Qed.

Lemma readUntilPrompt_echo_split_witness :
  readUntilPrompt
    (set_polls [lit "x ="; lit " 1" ++ crlf ++ lit ">>> "] (connectedRobot [] (fun _ => false)))
  = readUntilPrompt
      (set_polls [lit "x =" ++ lit " 1" ++ crlf ++ lit ">>> "]
         (connectedRobot [] (fun _ => false))).
Proof.
  apply (readUntilPrompt_echo_split (connectedRobot [] (fun _ => false))
           (lit "x =") (lit " 1" ++ crlf ++ lit ">>> ") [] eq_refl).
  - discriminate.
  - discriminate.
  - reflexivity.
Defined.

(** The scan ended in the prompt phase, or on its second empty poll. *)
Lemma scanEmit_mode (st : Scan) (d : str) (st' : Scan) :
  (scanEmit st d = Break st' -> receiveMode st' = 2) /\
  (scanEmit st d <> ReturnNull st').
Proof.
  unfold scanEmit. cbn [receiveMode].
  destruct (receiveMode st =? 2) eqn:E; split; intros H; try discriminate.
  injection H as <-. cbn [receiveMode]. now apply Nat.eqb_eq.
Qed.

Lemma scanStep_break (st : Scan) (d : str) (st' : Scan) :
  scanStep st d = Break st' -> receiveMode st' = 2.
Proof.
  unfold scanStep, scanPrompt.
  repeat match goal with
         | |- context [if ?b then _ else _] => destruct b
         | |- context [match ?o with Some _ => _ | None => _ end] => destruct o
         end;
    intros H; try discriminate; now apply (scanEmit_mode _ _ st') in H.
Qed.

Lemma scanStep_null (st : Scan) (d : str) (st' : Scan) :
  scanStep st d = ReturnNull st' -> d = [] /\ retryCount st' = S (retryCount st).
Proof.
  destruct d as [|c d].
  - rewrite scanStep_empty. destruct (1 <=? retryCount st); [|discriminate].
    intros H. injection H as <-. split; reflexivity.
  - intros H. destruct (scanStep_data st (c :: d) 0 ltac:(discriminate)) as (_ & N & _).
    now elim (N st').
Qed.

Lemma scanStep_retry (st : Scan) (d : str) (st' : Scan) :
  scanStep st d = Continue st' -> retryCount st <= 1 -> retryCount st' <= 1.
Proof.
  intros H Hr. destruct d as [|c d].
  - rewrite scanStep_empty in H. destruct (retryCount st) as [|[|n]]; cbn in H;
      try discriminate; try lia. injection H as <-. cbn. lia.
  - destruct (scanStep_data st (c :: d) 0 ltac:(discriminate)) as (_ & _ & R).
    rewrite H in R. cbn [stepState] in R. lia.
Qed.

(** X15.  The result tells the prompt from the silence: from the start of a
    call, a result that is not null is returned only with the scanner in the
    prompt phase and is the output accumulated so far, and null is returned
    only on an empty poll, the second of the call; the loop never ends
    through its condition [retryCount < 3]. *)
Theorem scanLoop_result (polls rest : list str) (st st' : Scan) (r : option str) :
  retryCount st <= 1 ->
  scanLoop st polls = Returned r st' rest ->
  match r with
  | Some out => receiveMode st' = 2 /\ out = output st'
  | None => retryCount st' = 2 /\ exists before, polls = before ++ [] :: rest
  end.
Proof.
  revert st. induction polls as [|d ps IH]; intros st Hr H.
  - rewrite scanLoop_nil in H by lia. discriminate.
  - rewrite scanLoop_cons in H by lia.
    destruct (scanStep st d) as [st1|st1|st1] eqn:Es.
    + pose proof (scanStep_retry st d st1 Es Hr) as Hr1.
      specialize (IH st1 Hr1 H). destruct r as [out|]; [exact IH|].
      destruct IH as (R & before & ->). split; [exact R|]. now exists (d :: before).
    + injection H as <- <- <-. split; [now apply (scanStep_break st d st1)|reflexivity].
    + injection H as <- <- <-. destruct (scanStep_null st d st1 Es) as [-> R].
      split.
      * rewrite scanStep_empty in Es.
        destruct (1 <=? retryCount st) eqn:E1; [|discriminate].
        apply Nat.leb_le in E1. lia.
      * now exists [].
Qed.

Lemma scanLoop_result_witness :
  let st' := {| receiveMode := 2; pending := []; retryCount := 0;
                output := lit "4" ++ crlf; echo := lit "2+2" |} in
  scanLoop (scanStart []) [lit "2+2" ++ crlf ++ lit "4" ++ crlf ++ lit ">>> "]
  = Returned (Some (lit "4" ++ crlf)) st' [] /\
  receiveMode st' = 2 /\ lit "4" ++ crlf = output st'.
Proof.
  cbv zeta. split; [reflexivity|].
  exact (scanLoop_result [lit "2+2" ++ crlf ++ lit "4" ++ crlf ++ lit ">>> "] []
           (scanStart []) _ (Some (lit "4" ++ crlf)) (Nat.le_0_l 1) eq_refl).
Defined.

Lemma filter_fresh (o : nat) (l : list Consumer) (c : Consumer) :
  Forall (fun c' => oid c' <> o) l -> oid c = o ->
  filter (fun c' => negb (oid c' =? o)) (l ++ [c]) = l.
Proof.
  intros Hl Hc. induction Hl as [|c' l Hc' _ IH]; cbn [app filter].
  - now rewrite Hc, Nat.eqb_refl.
  - apply Nat.eqb_neq in Hc'. rewrite Hc'. cbn [negb]. now f_equal.
Qed.

(** X16.  [readUntilPrompt] leaves no consumer behind: whenever the call
    ends, by a result, by null or by the not-connected error, the registered
    consumers are those registered before the call. *)
Theorem readUntilPrompt_releases_consumer (w : World) :
  Forall (fun c => oid c <> nextOid w) (bufferConsumers w) ->
  fst (readUntilPrompt w) <> Pending ->
  bufferConsumers (snd (readUntilPrompt w)) = bufferConsumers w.
Proof.
  intros Hfresh Hend. unfold readUntilPrompt in *.
  destruct (connected w); [|reflexivity].
  cbn [createBufferConsumer] in *.
  destruct (scanLoop _ _) as [r st rest|st]; [|now elim Hend].
  cbn [snd removeBufferConsumer bufferConsumers set_bufferConsumers set_polls
       set_lastLineEcho set_nextOid oid].
  now apply filter_fresh.
Qed.

Lemma readUntilPrompt_releases_consumer_witness :
  bufferConsumers
    (snd (readUntilPrompt (connectedRobot [crlf ++ lit ">>> "] (fun _ => false))))
  = [].
Proof.
  apply (readUntilPrompt_releases_consumer (connectedRobot [crlf ++ lit ">>> "] (fun _ => false))).
  - constructor.
  - vm_compute. discriminate.
Defined.

(* ------------------------------------------------------------------ *)
(** ** The line sender and the raw executor: what is written *)

Lemma encode_terminated_aux (n : nat) :
  forall l, length l <= n -> JS.encode (l ++ crlf) = JS.encode l ++ crlf.
Proof.
  induction n as [|n IH]; intros [|c t] Hl; try reflexivity; cbn [length] in Hl; [lia|].
  assert (Ht : JS.encode (t ++ crlf) = JS.encode t ++ crlf) by (apply IH; lia).
  cbn [app JS.encode].
  destruct (c <? 128)%N; [now rewrite Ht|].
  destruct (c <? 2048)%N; [now rewrite Ht|].
  destruct (JS.isHighSurrogate c).
  - destruct t as [|d u]; [reflexivity|]. cbn [app].
    destruct (JS.isLowSurrogate d).
    + rewrite (IH u) by (cbn [length] in Hl; lia). now rewrite app_assoc.
    + change (d :: u ++ crlf) with ((d :: u) ++ crlf). now rewrite Ht, app_assoc.
  - destruct (JS.isLowSurrogate c); now rewrite Ht, app_assoc.
Qed.

(** The UTF-8 encoding of a line followed by CR LF ends with the bytes 13
    and 10. *)
Lemma encode_terminated (l : str) : JS.encode (l ++ crlf) = JS.encode l ++ [13; 10]%N.
Proof. exact (encode_terminated_aux (length l) l (Nat.le_refl _)). Qed.

(** X17.  On a connected controller with a writer, [sendLine(line)] performs
    exactly one write, before it starts to read: the UTF-8 encoding of the
    line followed by the bytes CR and LF; this holds however the call ends. *)
Theorem sendLine_writes_line (line : str) (w : World) :
  connected w = true -> writer w = true ->
  trace (snd (sendLine line w)) = trace w ++ [EvWrite (JS.encode line ++ [13; 10]%N)].
Proof.
  intros Hc Hw. unfold sendLine. rewrite Hc, Hw. cbn [negb orb].
  unfold bind, writer_write. rewrite Hw.
  pose proof (readUntilPrompt_trace (emit (EvWrite (JS.encode (line ++ crlf))) w)) as T.
  destruct (readUntilPrompt _) as [[r|e|] w']; cbn [snd] in *;
    rewrite T; cbn [trace emit set_trace]; now rewrite encode_terminated.
Qed.

Lemma sendLine_writes_line_witness :
  trace (snd (sendLine (lit "x = 1") (connectedRobot [] (fun _ => false))))
  = [] ++ [EvWrite (JS.encode (lit "x = 1") ++ [13; 10]%N)].
Proof.
  exact (sendLine_writes_line (lit "x = 1") (connectedRobot [] (fun _ => false))
           eq_refl eq_refl).
Defined.

Lemma readUntilPrompt_silent (w : World) (rest : list str) :
  connected w = true -> polls w = [] :: [] :: rest ->
  fst (readUntilPrompt w) = Ret None /\
  polls (snd (readUntilPrompt w)) = rest /\
  trace (snd (readUntilPrompt w)) = trace w.
Proof.
  intros Hc Hp. rewrite (readUntilPrompt_scan w Hc). cbv zeta. rewrite Hp.
  repeat split.
Qed.

Lemma interrupt_silent (w : World) (rest : list str) :
  connected w = true -> writer w = true -> polls w = [] :: [] :: rest ->
  fst (interrupt w) = Throw DeviceNotResponding /\
  polls (snd (interrupt w)) = rest /\
  trace (snd (interrupt w)) = trace w ++ [EvWrite [3%N]; EvWrite [3%N]].
Proof.
  intros Hc Hw Hp. unfold interrupt, bind, writer_write, throw, ret. rewrite Hw.
  cbn [writer emit set_trace]. rewrite Hw.
  destruct (readUntilPrompt_silent
              (emit (EvWrite (JS.encode ctrlC)) (emit (EvWrite (JS.encode ctrlC)) w)) rest
              Hc Hp) as (R & P & T).
  destruct (readUntilPrompt _) as [[[s|]|e|] w']; cbn [fst snd] in *; try discriminate.
  repeat split; [exact P|]. rewrite T. cbn [trace emit set_trace].
  now rewrite <- app_assoc.
Qed.

(** X18.  A device that stays silent after the interrupts: when the two
    polls that follow them are empty, [executeCodeRaw] and [downloadCode]
    throw the not-responding error after writing the two interrupt bytes and
    nothing else; no line of the payload and no probe is sent. *)
Theorem silent_device_not_responding (w : World) (rest : list str) :
  connected w = true -> writer w = true -> polls w = [] :: [] :: rest ->
  (forall code retry,
     fst (executeCodeRaw code retry w) = Throw DeviceNotResponding /\
     trace (snd (executeCodeRaw code retry w)) = trace w ++ [EvWrite [3%N]; EvWrite [3%N]]) /\
  (forall filename,
     fst (downloadCode filename w) = Throw DeviceNotResponding /\
     trace (snd (downloadCode filename w)) = trace w ++ [EvWrite [3%N]; EvWrite [3%N]]).
Proof.
  intros Hc Hw Hp. destruct (interrupt_silent w rest Hc Hw Hp) as (R & _ & T).
  destruct (interrupt w) as [o w'] eqn:Ei. cbn [fst snd] in R, T. subst o.
  split; intros.
  - unfold executeCodeRaw. rewrite Hc. cbn [negb].
    rewrite (bind_Throw _ _ w w' _ Ei). now split.
  - unfold downloadCode. rewrite Hc. cbn [negb].
    rewrite (bind_Throw _ _ w w' _ Ei). now split.
Qed.

Lemma silent_device_not_responding_witness :
  fst (executeCodeRaw (lit "x = 1") true (connectedRobot [[]; []] (fun _ => false)))
  = Throw DeviceNotResponding /\
  trace (snd (executeCodeRaw (lit "x = 1") true (connectedRobot [[]; []] (fun _ => false))))
  = [] ++ [EvWrite [3%N]; EvWrite [3%N]].
Proof.
  exact (proj1 (silent_device_not_responding (connectedRobot [[]; []] (fun _ => false)) []
                  eq_refl eq_refl eq_refl) (lit "x = 1") true).
Defined.

Lemma sendActualLine_writes (retry : bool) (l : str) (w : World) :
  length (trace (snd (sendActualLine retry l w)))
  <= length (trace w) + (if retry then 3 else 1).
Proof.
  destruct retry.
  - destruct (sendActualLine_trace true l w) as (k & Hk & T).
    rewrite T, length_app, repeat_length. lia.
  - unfold sendActualLine. cbn [negb orb].
    destruct (sendLine_trace l w) as (k & Hk & T).
    unfold bind, throw, ret. destruct (sendLine l w) as [[[s|]|e|] w1]; cbn [snd] in *;
      rewrite T, length_app, repeat_length; lia.
Qed.

Lemma forEach_writes (ls : list str) (retry : bool) (w : World) :
  length (trace (snd (forEach ls (sendActualLine retry) w)))
  <= length (trace w) + (if retry then 3 else 1) * length ls.
Proof.
  revert w. induction ls as [|l ls IH]; intros w; [cbn; lia|].
  cbn [forEach length]. unfold bind.
  pose proof (sendActualLine_writes retry l w) as H1.
  destruct (sendActualLine retry l w) as [[[]|e|] w1]; cbn [snd] in *.
  - specialize (IH w1). nia.
  - nia.
  - nia.
Qed.

(** X19.  The number of writes of [executeCodeRaw] is bounded by the
    payload: two interrupts, and for each line that is not blank one write
    when retry is disabled and at most three when it is enabled. *)
Theorem executeCodeRaw_write_bound (code : str) (retry : bool) (w : World) :
  length (trace (snd (executeCodeRaw code retry w)))
  <= length (trace w) + 2
     + (if retry then 3 else 1) * length (flat_map lineToSend (linesOf code)).
Proof.
  destruct (connected w) eqn:Hc.
  - rewrite (executeCodeRaw_forEach code retry w Hc). unfold bind.
    destruct (interrupt_trace w) as (n & Hn & T).
    destruct (interrupt w) as [[[]|e|] w1]; cbn [snd] in *.
    + pose proof (forEach_writes (flat_map lineToSend (linesOf code)) retry w1) as H.
      rewrite T, length_app, repeat_length in H. lia.
    + rewrite T, length_app, repeat_length. lia.
    + rewrite T, length_app, repeat_length. lia.
  - unfold executeCodeRaw. rewrite Hc. cbn [negb snd]. lia.
Qed.

(* ------------------------------------------------------------------ *)
(** ** Download: the text between the markers *)

(** X24.  The outcomes of a download.  On a connected controller whose
    interrupts are answered, with [checkResult] the (non-null) response to
    the empty line that closes the probe: [downloadCode] throws the file-not-found error
    when [checkResult] contains [FILE_NOT_FOUND]; otherwise it sends the
    read command and the print command and, with [result] the (non-null)
    response to the latter, throws the read-failure error when either marker
    is missing from [result], and returns the text between the first start
    marker and the first end marker, CR LF replaced by LF, when the end
    marker begins at or after the end of the start marker. *)
Theorem downloadCode_outcomes (filename : str) (w w0 w1 w2 w3 : World)
        (r1 r2 : option str) (checkResult : str) :
  connected w = true ->
  interrupt w = (Ret tt, w0) ->
  sendLine (probeTry filename) w0 = (Ret r1, w1) ->
  sendLine probeExcept w1 = (Ret r2, w2) ->
  sendLine [] w2 = (Ret (Some checkResult), w3) ->
  (JS.includes checkResult (lit "FILE_NOT_FOUND") = true ->
   downloadCode filename w = (Throw (FileNotFound filename), w3))
  /\
  (JS.includes checkResult (lit "FILE_NOT_FOUND") = false ->
   forall r4 w4 result w5,
     sendLine (readCommand filename) w3 = (Ret r4, w4) ->
     sendLine printCommand w4 = (Ret (Some result), w5) ->
     (JS.includes result startMarker = false \/ JS.includes result endMarker = false ->
      downloadCode filename w = (Throw ReadContentFailed, w5))
     /\
     (forall si ei,
        JS.indexOf result startMarker = Some si ->
        JS.indexOf result endMarker = Some ei ->
        si + length startMarker <= ei ->
        exists pre content post,
          result = pre ++ startMarker ++ content ++ endMarker ++ post /\
          length pre = si /\
          length (pre ++ startMarker ++ content) = ei /\
          downloadCode filename w = (Ret (JS.replaceCRLF content), w5))).
Proof.
  intros Hc Hi E1 E2 E3.
  assert (Hd : downloadCode filename w =
               if JS.includes checkResult (lit "FILE_NOT_FOUND")
               then (Throw (FileNotFound filename), w3)
               else (sendLine (readCommand filename) ;;
                     result <- sendLine printCommand ;;
                     match result with
                     | None => throw TypeError
                     | Some result =>
                         match JS.indexOf result startMarker, JS.indexOf result endMarker with
                         | Some startIndex, Some endIndex =>
                             ret (JS.replaceCRLF
                                    (JS.substring result (startIndex + length startMarker)
                                       endIndex))
                         | _, _ => throw ReadContentFailed
                         end
                     end) w3).
  { unfold downloadCode. rewrite Hc. cbn [negb].
    rewrite (bind_Ret _ _ _ Hi), (bind_Ret _ _ _ E1), (bind_Ret _ _ _ E2),
      (bind_Ret _ _ _ E3).
    destruct (JS.includes checkResult (lit "FILE_NOT_FOUND")); reflexivity. }
  rewrite Hd. split; intros Hf; rewrite Hf; [reflexivity|].
  intros r4 w4 result w5 E4 E5.
  rewrite (bind_Ret _ _ _ E4), (bind_Ret _ _ _ E5). split.
  - intros [H|H]; apply includes_indexOf in H; rewrite H;
      [|destruct (JS.indexOf result startMarker)]; reflexivity.
  - intros si ei Hs He Hle.
    destruct (substring_between_markers result si ei Hs He Hle)
      as (pre & content & post & E & L & L' & S).
    exists pre, content, post. repeat split; [exact E | exact L | exact L' |].
    now rewrite Hs, He, S.
Qed.

Lemma downloadCode_outcomes_witness :
  let filename := lit "main.py" in
  let printed := lit "x = 1" ++ crlf ++ lit "y = 2" ++ crlf in
  let w := connectedRobot (downloadPolls filename printed) (fun _ => false) in
  exists pre content post,
    startMarker ++ printed ++ endMarker ++ crlf
    = pre ++ startMarker ++ content ++ endMarker ++ post /\
    length pre = 0 /\
    length (pre ++ startMarker ++ content) = 30 /\
    fst (downloadCode filename w) = Ret (JS.replaceCRLF content).
Proof.
  cbv zeta.
  set (filename := lit "main.py").
  set (printed := lit "x = 1" ++ crlf ++ lit "y = 2" ++ crlf).
  set (w := connectedRobot (downloadPolls filename printed) (fun _ => false)).
  set (w0 := snd (interrupt w)).
  set (w1 := snd (sendLine (probeTry filename) w0)).
  set (w2 := snd (sendLine probeExcept w1)).
  set (w3 := snd (sendLine [] w2)).
  set (w4 := snd (sendLine (readCommand filename) w3)).
  set (w5 := snd (sendLine printCommand w4)).
  set (result := startMarker ++ printed ++ endMarker ++ crlf).
  assert (Hi : interrupt w = (Ret tt, w0)) by (vm_compute; reflexivity).
  assert (E1 : sendLine (probeTry filename) w0 = (Ret (Some []), w1))
    by (vm_compute; reflexivity).
  assert (E2 : sendLine probeExcept w1 = (Ret (Some []), w2)) by (vm_compute; reflexivity).
  assert (E3 : sendLine [] w2 = (Ret (Some (lit "FILE_EXISTS" ++ crlf)), w3))
    by (vm_compute; reflexivity).
  assert (E4 : sendLine (readCommand filename) w3 = (Ret (Some []), w4))
    by (vm_compute; reflexivity).
  assert (E5 : sendLine printCommand w4 = (Ret (Some result), w5))
    by (vm_compute; reflexivity).
  assert (Hf : JS.includes (lit "FILE_EXISTS" ++ crlf) (lit "FILE_NOT_FOUND") = false)
    by (vm_compute; reflexivity).
  assert (Hs : JS.indexOf result startMarker = Some 0) by (vm_compute; reflexivity).
  assert (He : JS.indexOf result endMarker = Some 30) by (vm_compute; reflexivity).
  assert (Hle : 0 + length startMarker <= 30) by (vm_compute; lia).
  destruct (proj2 (proj2 (downloadCode_outcomes filename w _ _ _ _ _ _ _ eq_refl Hi E1 E2 E3) Hf
                     (Some []) w4 result w5 E4 E5) 0 30 Hs He Hle)
    as (pre & content & post & E & L & L' & D).
  exists pre, content, post. repeat split; [exact E | exact L | exact L' |].
  now rewrite D.
Defined.

(* ------------------------------------------------------------------ *)
(** ** The transfer encoder: bytes, hex text and what the device decodes *)

Lemma lor_byte (a b : N) : (a < 256 -> b < 256 -> N.lor a b < 256)%N.
Proof.
  intros Ha Hb. destruct (N.eq_0_gt_0_cases (N.lor a b)) as [E|P]; [rewrite E; lia|].
  change 256%N with (2 ^ 8)%N in *. apply (N.log2_lt_pow2 _ 8 P).
  rewrite N.log2_lor. apply N.max_lub_lt.
  - destruct (N.eq_0_gt_0_cases a) as [->|Pa]; [reflexivity | now apply N.log2_lt_pow2].
  - destruct (N.eq_0_gt_0_cases b) as [->|Pb]; [reflexivity | now apply N.log2_lt_pow2].
Qed.

Lemma land_63 (a : N) : (N.land a 63 < 64)%N.
Proof.
  change 63%N with (N.ones 6). rewrite N.land_ones. apply N.mod_upper_bound. discriminate.
Qed.

Lemma continuation_byte (a : N) : (N.lor 128 (N.land a 63) < 256)%N.
Proof. apply lor_byte; [lia|]. pose proof (land_63 a). lia. Qed.

Lemma shiftr_bound (a k m : N) : (a < m * 2 ^ k -> N.shiftr a k < m)%N.
Proof.
  intros H. rewrite N.shiftr_div_pow2. apply N.Div0.div_lt_upper_bound. lia.
Qed.

Lemma utf8_3_bytes (c : N) : (c < 65536)%N -> Forall (fun b => (b < 256)%N) (JS.utf8_3 c).
Proof.
  intros H. unfold JS.utf8_3. repeat constructor; try apply continuation_byte.
  apply lor_byte; [lia|]. pose proof (shiftr_bound c 12 16 H). lia.
Qed.

Lemma utf8_4_bytes (cp : N) : (cp < 2097152)%N -> Forall (fun b => (b < 256)%N) (JS.utf8_4 cp).
Proof.
  intros H. unfold JS.utf8_4. repeat constructor; try apply continuation_byte.
  apply lor_byte; [lia|]. pose proof (shiftr_bound cp 18 8 H). lia.
Qed.

Lemma surrogate_pair_bound (c d : N) :
  JS.isHighSurrogate c = true -> JS.isLowSurrogate d = true ->
  (65536 + N.shiftl (c - 55296) 10 + (d - 56320) < 2097152)%N.
Proof.
  unfold JS.isHighSurrogate, JS.isLowSurrogate. intros Hc Hd.
  apply andb_true_iff in Hc as [Hc1 Hc2]. apply andb_true_iff in Hd as [Hd1 Hd2].
  apply N.leb_le in Hc1, Hc2, Hd1, Hd2.
  rewrite N.shiftl_mul_pow2. change (2 ^ 10)%N with 1024%N. lia.
Qed.

Lemma encode_bytes_aux (n : nat) :
  forall s, length s <= n -> Forall (fun c => (c < 65536)%N) s ->
            Forall (fun b => (b < 256)%N) (JS.encode s) /\
            length (JS.encode s) <= 3 * length s.
Proof.
  induction n as [|n IH]; intros [|c t] Hl Hs; try (split; [constructor | cbn; lia]);
    cbn [length] in Hl; [lia|].
  inversion Hs as [|? ? Hc Ht]; subst.
  destruct (IH t ltac:(lia) Ht) as [Bt Lt].
  cbn [JS.encode length].
  destruct (c <? 128)%N eqn:E1.
  { apply N.ltb_lt in E1. split; [constructor; [lia | exact Bt] | cbn [length]; lia]. }
  destruct (c <? 2048)%N eqn:E2.
  { apply N.ltb_lt in E2. split.
    - constructor; [|constructor; [apply continuation_byte | exact Bt]].
      apply lor_byte; [lia|]. pose proof (shiftr_bound c 6 32 E2). lia.
    - cbn [length]. lia. }
  destruct (JS.isHighSurrogate c) eqn:E3.
  { destruct t as [|d u].
    - split; [now apply utf8_3_bytes | cbn; lia].
    - destruct (JS.isLowSurrogate d) eqn:E4.
      + inversion Ht as [|? ? Hd Hu]; subst.
        destruct (IH u ltac:(cbn [length] in Hl; lia) Hu) as [Bu Lu]. split.
        * apply Forall_app. split; [|exact Bu].
          apply utf8_4_bytes. now apply surrogate_pair_bound.
        * rewrite length_app. cbn [length JS.utf8_4] in *. lia.
      + split.
        * apply Forall_app. split; [now apply utf8_3_bytes | exact Bt].
        * rewrite length_app. cbn [length JS.utf8_3] in *. lia. }
  destruct (JS.isLowSurrogate c).
  - split.
    + apply Forall_app. split; [now apply utf8_3_bytes | exact Bt].
    + rewrite length_app. cbn [length JS.utf8_3] in *. lia.
  - split.
    + apply Forall_app. split; [now apply utf8_3_bytes | exact Bt].
    + rewrite length_app. cbn [length JS.utf8_3] in *. lia.
Qed.

Lemma encode_ascii (s : str) : Forall (fun c => (c < 128)%N) s -> JS.encode s = s.
Proof.
  induction 1 as [|c t Hc _ IH]; [reflexivity|].
  cbn [JS.encode]. apply N.ltb_lt in Hc. now rewrite Hc, IH.
Qed.

(** X20.  What a string payload becomes: the bytes [wrapCodeHex] hex-encodes
    for a string of UTF-16 code units are bytes (each below 256) and number
    at most three per code unit; for a string of ASCII characters they are
    the characters themselves. *)
Theorem encode_bytes (s : str) :
  Forall (fun c => (c < 65536)%N) s ->
  Forall (fun b => (b < 256)%N) (JS.encode s) /\
  length (JS.encode s) <= 3 * length s /\
  (Forall (fun c => (c < 128)%N) s ->
   wrapCodeHex (CodeString s) = wrapCodeHex (CodeBytes s)).
Proof.
  intros Hs. destruct (encode_bytes_aux (length s) s (Nat.le_refl _) Hs) as [B L].
  repeat split; try assumption.
  intros Ha. unfold wrapCodeHex. now rewrite (encode_ascii s Ha).
Qed.

Lemma encode_bytes_witness :
  Forall (fun b => (b < 256)%N) (JS.encode [104; 233; 8364; 55357; 56832]%N) /\
  length (JS.encode [104; 233; 8364; 55357; 56832]%N) <= 3 * 5.
Proof.
  assert (H : Forall (fun c => (c < 65536)%N) [104; 233; 8364; 55357; 56832]%N)
    by (repeat constructor).
  destruct (encode_bytes [104; 233; 8364; 55357; 56832]%N H) as (B & L & _).
  split; [exact B | exact L].
Defined.

Lemma decode_hexByte (b : N) :
  (b < 256)%N ->
  (hexVal (hexDigit (b / 16)) * 16 + hexVal (hexDigit (b mod 16)) = b)%N.
Proof.
  intros Hb.
  assert (All : forallb (fun b => (hexVal (hexDigit (b / 16)) * 16
                                  + hexVal (hexDigit (b mod 16)) =? b)%N)
                  (map N.of_nat (seq 0 256)) = true) by (vm_compute; reflexivity).
  rewrite forallb_forall in All. apply N.eqb_eq, All.
  rewrite <- (N2Nat.id b). apply in_map, in_seq. lia.
Qed.

Lemma decodeHex_hex (bytes : list N) :
  Forall (fun b => (b < 256)%N) bytes -> decodeHex (flat_map hexByte bytes) = bytes.
Proof.
  induction 1 as [|b bytes Hb _ IH]; [reflexivity|].
  cbn [flat_map hexByte app decodeHex]. now rewrite IH, decode_hexByte.
Qed.

Lemma skipn_hex (k : nat) (bytes : list N) :
  skipn (2 * k) (flat_map hexByte bytes) = flat_map hexByte (skipn k bytes).
Proof.
  revert bytes. induction k as [|k IH]; intros bytes; [reflexivity|].
  destruct bytes as [|b bytes]; [reflexivity|].
  replace (2 * S k) with (S (S (2 * k))) by lia.
  cbn [flat_map hexByte app skipn]. apply IH.
Qed.

Lemma firstn_hex (k : nat) (bytes : list N) :
  firstn (2 * k) (flat_map hexByte bytes) = flat_map hexByte (firstn k bytes).
Proof.
  revert bytes. induction k as [|k IH]; intros bytes; [reflexivity|].
  destruct bytes as [|b bytes]; [reflexivity|].
  replace (2 * S k) with (S (S (2 * k))) by lia.
  cbn [flat_map hexByte app firstn]. now rewrite IH.
Qed.

Lemma hex_slice (bytes : list N) (i m : nat) :
  JS.substring (flat_map hexByte bytes) (i * (2 * m)) ((i + 1) * (2 * m))
  = flat_map hexByte (JS.substring bytes (i * m) ((i + 1) * m)).
Proof.
  rewrite !substring_chunk.
  replace (i * (2 * m)) with (2 * (i * m)) by lia.
  now rewrite skipn_hex, firstn_hex.
Qed.

Lemma in_slice {A} (x : A) (n k : nat) (l : list A) :
  In x (firstn n (skipn k l)) -> In x l.
Proof.
  intros H. rewrite <- (firstn_skipn k l). apply in_or_app. right.
  rewrite <- (firstn_skipn n (skipn k l)). apply in_or_app. now left.
Qed.

Lemma wrapCodeHex_slices (bytes : list N) (saveTo : option str) (append : bool) :
  Forall (fun b => (b < 256)%N) bytes ->
  wrapCodeHex (CodeBytes bytes) saveTo append
  = unlines
      ([ tpl "import gc; gc.collect(); b_ = bytearray(" ++ JS.toString10 (length bytes)
           ++ tpl "); bi_ = 0" ]
       ++ flat_map chunkLines (slices (flat_map hexByte bytes) this_chunkSize)
       ++ closingLines saveTo append).
Proof.
  intros Hbytes. unfold wrapCodeHex. cbv zeta.
  rewrite (hexStr_of_bytes _ Hbytes).
  rewrite (chunk_loop_lines
             (fun i => JS.substring (flat_map hexByte bytes) (i * this_chunkSize)
                         ((i + 1) * this_chunkSize))).
  fold (slices (flat_map hexByte bytes) this_chunkSize).
  unfold chunkLines. rewrite !unlines_app.
  unfold closingLines, unlines.
  destruct saveTo as [path|]; cbn [flat_map app];
    rewrite ?app_nil_r, <- ?app_assoc; reflexivity.
Qed.

(** X21.  The script carries the payload whole.  The chunks of hex text that
    [wrapCodeHex] puts in the script each hold an even number of digits, so
    none cuts a byte in two, and decoding them pair by pair, chunk after
    chunk, as the loop of the script does, gives back the bytes of the
    payload. *)
Theorem wrapCodeHex_decodes (bytes : list N) (saveTo : option str) (append : bool) :
  Forall (fun b => (b < 256)%N) bytes ->
  exists pieces : list str,
    wrapCodeHex (CodeBytes bytes) saveTo append
    = unlines
        ([ tpl "import gc; gc.collect(); b_ = bytearray(" ++ JS.toString10 (length bytes)
             ++ tpl "); bi_ = 0" ]
         ++ flat_map chunkLines pieces
         ++ closingLines saveTo append) /\
    Forall (fun p => Nat.even (length p) = true) pieces /\
    flat_map decodeHex pieces = bytes.
Proof.
  intros Hbytes.
  exists (slices (flat_map hexByte bytes) this_chunkSize).
  split; [now apply wrapCodeHex_slices|].
  assert (Hp : slices (flat_map hexByte bytes) this_chunkSize
               = map (fun i => flat_map hexByte (JS.substring bytes (i * 512) ((i + 1) * 512)))
                   (seq 0 (JS.ceilDiv (length (flat_map hexByte bytes)) this_chunkSize))).
  { unfold slices. apply map_ext. intros i.
    change this_chunkSize with (2 * 512). apply hex_slice. }
  rewrite Hp. split.
  - apply (proj2 (Forall_map _ _ _)). apply Forall_forall. intros i _.
    rewrite hexByte_flat_length, Nat.even_mul. reflexivity.
  - rewrite flat_map_concat_map, map_map.
    erewrite map_ext_in.
    + rewrite (slices_prefix bytes 512). apply firstn_all2.
      pose proof (ceilDiv_upper (length (flat_map hexByte bytes)) this_chunkSize
                    ltac:(unfold this_chunkSize; lia)) as U.
      rewrite hexByte_flat_length in U. unfold this_chunkSize in U.
      rewrite hexByte_flat_length. unfold this_chunkSize. lia.
    + intros i _. cbv beta. apply decodeHex_hex.
      rewrite substring_chunk. apply Forall_forall. intros x Hx.
      apply in_slice in Hx. revert x Hx. now apply Forall_forall.
Qed.

Lemma wrapCodeHex_decodes_witness :
  exists pieces : list str,
    wrapCodeHex (CodeBytes [104; 105; 255]%N) None false
    = unlines
        ([ tpl "import gc; gc.collect(); b_ = bytearray(" ++ JS.toString10 3
             ++ tpl "); bi_ = 0" ]
         ++ flat_map chunkLines pieces
         ++ closingLines None false) /\
    Forall (fun p => Nat.even (length p) = true) pieces /\
    flat_map decodeHex pieces = [104; 105; 255]%N.
Proof.
  apply (wrapCodeHex_decodes [104; 105; 255]%N None false).
  repeat constructor.
Defined.

(** X22.  What one upload chunk allocates on the device: for a payload of
    UTF-16 code units, the script of every chunk of [uploadCode] encodes a
    sequence of bytes of length at most 3072 (three bytes for each of at most
    1024 code units), and of length at most 1024 when the payload is
    ASCII. *)
Theorem uploadChunks_bytes (code : str) :
  Forall (fun c => (c < 65536)%N) code ->
  Forall (fun chunk =>
            Forall (fun b => (b < 256)%N) (JS.encode (fst chunk)) /\
            length (JS.encode (fst chunk)) <= 3072 /\
            (Forall (fun c => (c < 128)%N) code -> length (JS.encode (fst chunk)) <= 1024))
         (uploadChunks code).
Proof.
  intros Hcode.
  apply Forall_forall. intros chunk Hin.
  assert (Hlen : 0 < length (fst chunk) <= 1024).
  { pose proof (slices_bounds code this_chunkSize ltac:(unfold this_chunkSize; lia)) as Hb.
    rewrite <- uploadChunks_slices in Hb. rewrite Forall_forall in Hb.
    apply (Hb (fst chunk)). now apply in_map. }
  assert (Hsub : forall x, In x (fst chunk) -> In x code).
  { apply (in_map fst) in Hin. rewrite uploadChunks_slices in Hin.
    unfold slices in Hin. apply in_map_iff in Hin as (i & <- & _).
    rewrite substring_chunk. intros x Hx. now apply in_slice in Hx. }
  assert (Hvalid : Forall (fun c => (c < 65536)%N) (fst chunk)).
  { apply Forall_forall. intros x Hx. rewrite Forall_forall in Hcode. auto. }
  destruct (encode_bytes_aux (length (fst chunk)) (fst chunk) (Nat.le_refl _) Hvalid)
    as (B & L).
  unfold JS.str in *.
  repeat split; [exact B | lia |].
  intros Hascii. rewrite encode_ascii; [lia|].
  apply Forall_forall. intros x Hx. rewrite Forall_forall in Hascii. auto.
Qed.

Lemma uploadChunks_bytes_witness :
  Forall (fun chunk =>
            Forall (fun b => (b < 256)%N) (JS.encode (fst chunk)) /\
            length (JS.encode (fst chunk)) <= 3072 /\
            (Forall (fun c => (c < 128)%N) (lit "x = 1") ->
             length (JS.encode (fst chunk)) <= 1024))
         (uploadChunks (lit "x = 1")).
Proof.
  apply (uploadChunks_bytes (lit "x = 1")). repeat constructor.
Defined.
